(** * Notes backend: the cache and invalidation layer over per-owner notes

    A shallow embedding of
      - [app/core/database.py]   (FirestoreService, the store adapter),
      - [app/core/cache.py]      (CacheService, the Redis cache layer),
      - [app/models/note.py]     (NoteCreate, NoteUpdate, Note),
      - [app/services/note_service_optimized.py] (OptimizedNoteService),
      - [app/api/notes.py]       (the routes under /notes).

    Python's [async def] bodies are sequential here (every call is awaited in
    order), so each method is a computation in a state-and-exception monad.
    [try: ... except Exception as e: ...] is [try_except]. Logging has no
    effect on the state and is left out. *)

From Stdlib Require Import Ascii.
From stdpp Require Import gmap strings list fin_maps pretty sorting.

Local Open Scope Z_scope.

(** ** Exceptions and the state-and-exception monad *)

Inductive exn : Type :=
| StoreError                        (* a failure raised by the Firestore client *)
| NotInitialized                    (* Exception("Firestore client not initialized") *)
| CacheError                        (* a failure raised by the Redis client *)
| KeyError (k : string)             (* d[k] on a dict without k *)
| TypeError
| ValueError
| ValidationError                   (* pydantic rejects a model *)
| HTTPException (status_code : Z).

Global Instance exn_eq_dec : EqDecision exn.
Proof. solve_decision. Defined.

Definition ES (S A : Type) : Type := S → (exn + A) * S.

Global Instance ES_ret {S} : MRet (ES S) := λ A x s, (inr x, s).
Global Instance ES_bind {S} : MBind (ES S) := λ A B f c s,
  match c s with
  | (inr x, s') => f x s'
  | (inl e, s') => (inl e, s')
  end.

Definition raise {S A} (e : exn) : ES S A := λ s, (inl e, s).
Definition gets {S A} (f : S → A) : ES S A := λ s, (inr (f s), s).
Definition modify {S} (f : S → S) : ES S unit := λ s, (inr tt, f s).

(** [try: body  except Exception as e: handler e]. Effects of [body] before
    the exception stay. *)
Definition try_except {S A} (body : ES S A) (handler : exn → ES S A) : ES S A :=
  λ s, match body s with
       | (inr x, s') => (inr x, s')
       | (inl e, s') => handler e s'
       end.

(** ** Data model *)

(** A Firestore field value, as far as notes use them. A timestamp is the
    number of microseconds since the epoch. *)
Inductive fval : Type :=
| VStr (s : string)
| VBool (b : bool)
| VTime (t : Z).

Global Instance fval_eq_dec : EqDecision fval.
Proof. solve_decision. Defined.

(** A document body or a Python dict of fields. *)
Abbreviation doc := (gmap string fval).

(** models/note.py *)
Record NoteCreate : Type := mkNoteCreate {
  c_title : string;
  c_content : string;
  c_is_deleted : bool;
  c_is_pinned : bool;
  c_format : string;
  c_color : string }.

Record NoteUpdate : Type := mkNoteUpdate {
  u_title : option string;
  u_content : option string;
  u_is_deleted : option bool;
  u_is_pinned : option bool;
  u_format : option string;
  u_color : option string }.

Record Note : Type := mkNote {
  n_id : string;
  n_title : string;
  n_content : string;
  n_is_deleted : bool;
  n_is_pinned : bool;
  n_format : string;
  n_color : string;
  n_user_id : string;
  n_created_at : Z;
  n_updated_at : Z }.

Global Instance Note_eq_dec : EqDecision Note.
Proof. solve_decision. Defined.

(** [datetime.min], in microseconds since the epoch. *)
Definition datetime_min : Z := -62135596800000000.

(** str(b) for a bool, as an f-string renders it. *)
Definition pybool (b : bool) : string := if b then "True" else "False".

(** ** Sorting

    A stable insertion sort: [x] goes in front of the first [y] with
    [le x y], so of two elements that compare equal the one that came first
    stays first, as in Python's [list.sort]. *)
Fixpoint insert_by {A} (le : A → A → bool) (x : A) (l : list A) : list A :=
  match l with
  | [] => [x]
  | y :: l' => if le x y then x :: l else y :: insert_by le x l'
  end.

Definition sort_by {A} (le : A → A → bool) (l : list A) : list A :=
  foldr (insert_by le) [] l.

(** ** The store adapter: core/database.py *)

(** The Firestore client. [docs] maps (owner, note id) to the body of the
    document users/{owner}/notes/{id}. [db] is false when the client failed
    to initialise. [sfail k] tells whether the k-th call to the client raises;
    [scalls] counts the calls made, [sraised] the failures raised so far. *)
Record firestore : Type := mkFirestore {
  docs : gmap (string * string) doc;
  db : bool;
  sfail : nat → bool;
  scalls : nat;
  sraised : nat }.

Definition set_docs (f : gmap (string * string) doc → gmap (string * string) doc)
    (s : firestore) : firestore :=
  mkFirestore (f (docs s)) (db s) (sfail s) (scalls s) (sraised s).

Inductive fop : Type := OpEq.

Abbreviation filter_t := (string * fop * fval)%type.

Module Firestore.

Definition count_call (s : firestore) : firestore :=
  mkFirestore (docs s) (db s) (sfail s) (S (scalls s)) (sraised s).
Definition count_raise (s : firestore) : firestore :=
  mkFirestore (docs s) (db s) (sfail s) (scalls s) (S (sraised s)).

(** One round trip to Firestore: it raises when the schedule says so. *)
Definition call : ES firestore unit :=
  failing ← gets (λ s, sfail s (scalls s));
  modify count_call ;;
  if (failing : bool) then modify count_raise ;; raise StoreError else mret tt.

(** doc_ref.set(data): create or overwrite. *)
Definition set (owner id : string) (data : doc) : ES firestore unit :=
  call ;; modify (set_docs <[(owner, id) := data]>).

(** doc_ref.get(): [None] when the snapshot does not exist. *)
Definition get (owner id : string) : ES firestore (option doc) :=
  call ;; gets (λ s, docs s !! (owner, id)).

(** doc_ref.delete(): succeeds whether or not the document exists. *)
Definition delete (owner id : string) : ES firestore unit :=
  call ;; modify (set_docs (base.delete (owner, id))).

(** doc_ref.update(data): writes the given fields over the stored ones;
    fails when the document does not exist. *)
Definition update (owner id : string) (data : doc) : ES firestore unit :=
  call ;;
  old ← gets (λ s, docs s !! (owner, id));
  match old with
  | Some d => modify (set_docs <[(owner, id) := data ∪ d]>)
  | None => modify count_raise ;; raise StoreError
  end.

Definition holds (d : doc) (f : filter_t) : bool :=
  match f with
  | (field, OpEq, value) => bool_decide (d !! field = Some value)
  end.

(** The sub-collection of an owner, in Firestore's default order:
    ascending by document id. *)
Definition subcollection (owner : string) (m : gmap (string * string) doc)
    : list (string * doc) :=
  sort_by (λ a b, String.leb a.1 b.1)
    (omap (λ '((o, id), d), if decide (o = owner) then Some (id, d) else None)
          (map_to_list m)).

(** query.where(..)...limit(n).stream() *)
Definition stream (owner : string) (filters : list filter_t)
    (limit : option nat) : ES firestore (list (string * doc)) :=
  call ;;
  matching ← gets (λ s, filter (λ p, forallb (holds p.2) filters)
                           (subcollection owner (docs s)));
  mret (match limit with Some n => take n matching | None => matching end).

End Firestore.

(** {"id": doc.id, **doc.to_dict()}: a field named id in the body wins. *)
Definition with_id (id : string) (d : doc) : doc := d ∪ {["id" := VStr id]}.

Module FirestoreService.

Definition get_subcollection : ES firestore unit :=
  ready ← gets db;
  if (ready : bool) then mret tt
  else modify Firestore.count_raise ;; raise NotInitialized.

Definition create_subcollection_document
    (document_id subdocument_id : string) (data : doc) : ES firestore doc :=
  try_except
    (get_subcollection ;;
     Firestore.set document_id subdocument_id data ;;
     mret (with_id subdocument_id data))
    (λ e, raise e).

Definition get_subcollection_document
    (document_id subdocument_id : string) : ES firestore (option doc) :=
  try_except
    (get_subcollection ;;
     d ← Firestore.get document_id subdocument_id;
     match d with
     | Some d => mret (Some (with_id subdocument_id d))
     | None => mret None
     end)
    (λ e, raise e).

Definition update_subcollection_document
    (document_id subdocument_id : string) (data : doc)
    : ES firestore (option doc) :=
  try_except
    (get_subcollection ;;
     Firestore.update document_id subdocument_id data ;;
     get_subcollection_document document_id subdocument_id)
    (λ e, raise e).

Definition delete_subcollection_document
    (document_id subdocument_id : string) : ES firestore bool :=
  try_except
    (get_subcollection ;;
     Firestore.delete document_id subdocument_id ;;
     mret true)
    (λ e, raise e).

(** [if limit:] — no limit for None and for 0. *)
Definition query_subcollection
    (document_id : string) (filters : list filter_t) (limit : option nat)
    : ES firestore (list doc) :=
  try_except
    (get_subcollection ;;
     found ← Firestore.stream document_id filters
               (match limit with
                | Some O => None
                | l => l
                end);
     mret ((λ p, with_id p.1 p.2) <$> found))
    (λ e, raise e).

End FirestoreService.

(** ** The cache layer: core/cache.py *)

(** What a Redis string holds here: json.dumps of a note dict, json.dumps of
    a list of note dicts, or the decimal text of an integer (str(count), and
    what INCRBY leaves). json.loads gives the value back. *)
Inductive cval : Type :=
| CNote (n : Note)
| CNotes (l : list Note)
| CInt (z : Z).

(** The Redis client. [kv] maps a key to its value and its time to live in
    seconds. [cfail k] tells whether the k-th call raises; [ccalls] counts
    the calls made, [craised] the failures raised so far. *)
Record redis : Type := mkRedis {
  kv : gmap string (cval * Z);
  cfail : nat → bool;
  ccalls : nat;
  craised : nat }.

Definition set_kv (f : gmap string (cval * Z) → gmap string (cval * Z))
    (r : redis) : redis :=
  mkRedis (f (kv r)) (cfail r) (ccalls r) (craised r).

(** Redis glob patterns with [*] and [?]; character classes and escapes are
    not modelled (owner ids are Firebase uids, which have neither). *)
Fixpoint glob (p s : string) : bool :=
  match p with
  | "" => bool_decide (s = "")
  | String c p' =>
      if decide (c = "*"%char) then
        (fix star (s : string) : bool :=
           glob p' s || match s with
                        | "" => false
                        | String _ s' => star s'
                        end) s
      else
        match s with
        | "" => false
        | String d s' =>
            (bool_decide (c = "?"%char) || bool_decide (c = d)) && glob p' s'
        end
  end.

Module Redis.

Definition count_call (r : redis) : redis :=
  mkRedis (kv r) (cfail r) (S (ccalls r)) (craised r).
Definition count_raise (r : redis) : redis :=
  mkRedis (kv r) (cfail r) (ccalls r) (S (craised r)).

(** One use of the client: it raises when the schedule says so. *)
Definition call : ES redis unit :=
  failing ← gets (λ r, cfail r (ccalls r));
  modify count_call ;;
  if (failing : bool) then modify count_raise ;; raise CacheError else mret tt.

Definition get (key : string) : ES redis (option cval) :=
  call ;; gets (λ r, fst <$> kv r !! key).

Definition setex (key : string) (ttl : Z) (value : cval) : ES redis unit :=
  call ;; modify (set_kv <[key := (value, ttl)]>).

Definition keys (pattern : string) : ES redis (list string) :=
  call ;; gets (λ r, filter (λ k, glob pattern k = true) (map_to_list (kv r)).*1).

Definition delete (ks : list string) : ES redis unit :=
  call ;; modify (set_kv (λ m, foldr base.delete m ks)).

Definition int64 (z : Z) : bool :=
  bool_decide (-9223372036854775808 ≤ z ≤ 9223372036854775807).

(** INCRBY: a missing key counts as 0 and gets no expiry; a value that is
    not an integer, or a result outside 64 bits, is an error. *)
Definition incrby (key : string) (increment : Z) : ES redis Z :=
  call ;;
  old ← gets (λ r, kv r !! key);
  match old with
  | None =>
      if int64 increment
      then modify (set_kv <[key := (CInt increment, -1)]>) ;; mret increment
      else modify count_raise ;; raise CacheError
  | Some (CInt z, ttl) =>
      if int64 (z + increment)
      then modify (set_kv <[key := (CInt (z + increment), ttl)]>) ;;
           mret (z + increment)
      else modify count_raise ;; raise CacheError
  | Some _ => modify count_raise ;; raise CacheError
  end.

Definition expire (key : string) (ttl : Z) : ES redis bool :=
  call ;;
  old ← gets (λ r, kv r !! key);
  match old with
  | Some (v, _) => modify (set_kv <[key := (v, ttl)]>) ;; mret true
  | None => mret false
  end.

End Redis.

Module CacheService.

Definition cache_ttl : Z := 300.

(** [ttl or self.cache_ttl] *)
Definition ttl_or (ttl : option Z) : Z :=
  match ttl with
  | Some t => if decide (t = 0) then cache_ttl else t
  | None => cache_ttl
  end.

(** redis.Redis(...) is built on first use; building it is one use of the
    client library and may raise as any other. *)
Definition get_redis_client : ES redis unit := Redis.call.

Definition get_notes_cache_key (user_id : string) (include_deleted : bool)
    (limit offset : Z) : ES redis string :=
  mret ("notes:user:" +:+ user_id +:+ ":deleted:" +:+ pybool include_deleted
        +:+ ":limit:" +:+ pretty limit +:+ ":offset:" +:+ pretty offset).

Definition get_note_cache_key (note_id user_id : string) : ES redis string :=
  mret ("note:" +:+ note_id +:+ ":user:" +:+ user_id).

Definition get_user_notes_count_key (user_id : string)
    (include_deleted : bool) : ES redis string :=
  mret ("notes_count:user:" +:+ user_id +:+ ":deleted:" +:+ pybool include_deleted).

Definition get_notes (user_id : string) (include_deleted : bool)
    (limit offset : Z) : ES redis (option cval) :=
  try_except
    (get_redis_client ;;
     cache_key ← get_notes_cache_key user_id include_deleted limit offset;
     cached_data ← Redis.get cache_key;
     match cached_data with
     | Some v => mret (Some v)
     | None => mret None
     end)
    (λ e, mret None).

Definition set_notes (user_id : string) (notes : list Note)
    (include_deleted : bool) (limit offset : Z) (ttl : option Z)
    : ES redis bool :=
  try_except
    (get_redis_client ;;
     cache_key ← get_notes_cache_key user_id include_deleted limit offset;
     Redis.setex cache_key (ttl_or ttl) (CNotes notes) ;;
     mret true)
    (λ e, mret false).

Definition get_note (note_id user_id : string) : ES redis (option cval) :=
  try_except
    (get_redis_client ;;
     cache_key ← get_note_cache_key note_id user_id;
     cached_data ← Redis.get cache_key;
     match cached_data with
     | Some v => mret (Some v)
     | None => mret None
     end)
    (λ e, mret None).

Definition set_note (note : Note) (ttl : option Z) : ES redis bool :=
  try_except
    (get_redis_client ;;
     cache_key ← get_note_cache_key (n_id note) (n_user_id note);
     Redis.setex cache_key (ttl_or ttl) (CNote note) ;;
     mret true)
    (λ e, mret false).

Definition invalidate_user_notes (user_id : string) : ES redis bool :=
  try_except
    (get_redis_client ;;
     ks ← Redis.keys ("notes:user:" +:+ user_id +:+ ":*");
     match ks with
     | [] => mret tt
     | _ => Redis.delete ks
     end ;;
     count_keys ← Redis.keys ("notes_count:user:" +:+ user_id +:+ ":*");
     match count_keys with
     | [] => mret tt
     | _ => Redis.delete count_keys
     end ;;
     mret true)
    (λ e, mret false).

Definition invalidate_note (note_id user_id : string) : ES redis bool :=
  try_except
    (get_redis_client ;;
     cache_key ← get_note_cache_key note_id user_id;
     Redis.delete [cache_key] ;;
     invalidate_user_notes user_id ;;
     mret true)
    (λ e, mret false).

(** int(cached_count) raises ValueError on text that is no integer. *)
Definition get_notes_count (user_id : string) (include_deleted : bool)
    : ES redis (option Z) :=
  try_except
    (get_redis_client ;;
     cache_key ← get_user_notes_count_key user_id include_deleted;
     cached_count ← Redis.get cache_key;
     match cached_count with
     | Some (CInt z) => mret (Some z)
     | Some _ => raise ValueError
     | None => mret None
     end)
    (λ e, mret None).

Definition set_notes_count (user_id : string) (count : Z)
    (include_deleted : bool) (ttl : option Z) : ES redis bool :=
  try_except
    (get_redis_client ;;
     cache_key ← get_user_notes_count_key user_id include_deleted;
     Redis.setex cache_key (ttl_or ttl) (CInt count) ;;
     mret true)
    (λ e, mret false).

Definition increment_notes_count (user_id : string) (include_deleted : bool)
    (increment : Z) : ES redis bool :=
  try_except
    (get_redis_client ;;
     cache_key ← get_user_notes_count_key user_id include_deleted;
     Redis.incrby cache_key increment ;;
     Redis.expire cache_key cache_ttl ;;
     mret true)
    (λ e, mret false).

End CacheService.

(** ** The note repository: services/note_service_optimized.py *)

(** The process: the two shared clients and the clock. The k-th reading of
    [datetime.utcnow()] is [clock k], in microseconds since the epoch. *)
Record world : Type := mkWorld {
  fs : firestore;
  rd : redis;
  clock : nat → Z;
  tick : nat }.

(** The global instances [firestore_service] and [cache_service]: a call on
    one of them touches that client alone. *)
Definition firestore_service {A} (c : ES firestore A) : ES world A := λ w,
  let '(r, s) := c (fs w) in (r, mkWorld s (rd w) (clock w) (tick w)).

Definition cache_service {A} (c : ES redis A) : ES world A := λ w,
  let '(r, s) := c (rd w) in (r, mkWorld (fs w) s (clock w) (tick w)).

Definition utcnow : ES world Z := λ w,
  (inr (clock w (tick w)), mkWorld (fs w) (rd w) (clock w) (S (tick w))).

Fixpoint mapM {S A B} (f : A → ES S B) (l : list A) : ES S (list B) :=
  match l with
  | [] => mret []
  | x :: l' => y ← f x; ys ← mapM f l'; mret (y :: ys)
  end.

(** *** Building a [Note] (pydantic) *)

Definition as_str (v : fval) : option string :=
  match v with VStr s => Some s | _ => None end.
Definition as_bool (v : fval) : option bool :=
  match v with VBool b => Some b | _ => None end.
Definition as_time (v : fval) : option Z :=
  match v with VTime t => Some t | _ => None end.

(** The constraints of NoteBase: title of 1 to 200 characters, content not
    empty. *)
Definition valid_text (title content : string) : bool :=
  bool_decide (1 ≤ String.length title ≤ 200)%nat
  && bool_decide (1 ≤ String.length content)%nat.

(** Note(id=.., title=.., ...): every field of its declared type (pydantic's
    coercions between types are not modelled) and within its constraints. *)
Definition validate (id title content is_deleted is_pinned format color : fval)
    (user_id : string) (created_at updated_at : fval) : option Note :=
  id ← as_str id;
  title ← as_str title;
  content ← as_str content;
  is_deleted ← as_bool is_deleted;
  is_pinned ← as_bool is_pinned;
  format ← as_str format;
  color ← as_str color;
  created_at ← as_time created_at;
  updated_at ← as_time updated_at;
  if valid_text title content
  then Some (mkNote id title content is_deleted is_pinned format color
               user_id created_at updated_at)
  else None.

(** d[k] *)
Definition getitem {S} (d : doc) (k : string) : ES S fval :=
  match d !! k with
  | Some v => mret v
  | None => raise (KeyError k)
  end.

(** Note(id=d["id"], title=d["title"], content=d["content"],
         is_deleted=d["is_deleted"], is_pinned=d.get("is_pinned", False),
         format=d.get("format", "text"), color=d.get("color", "primary"),
         user_id=user_id, created_at=d["created_at"],
         updated_at=d["updated_at"]) *)
Definition Note_of {S} (d : doc) (user_id : string) : ES S Note :=
  id ← getitem d "id";
  title ← getitem d "title";
  content ← getitem d "content";
  is_deleted ← getitem d "is_deleted";
  created_at ← getitem d "created_at";
  updated_at ← getitem d "updated_at";
  match validate id title content is_deleted
          (default (VBool false) (d !! "is_pinned"))
          (default (VStr "text") (d !! "format"))
          (default (VStr "primary") (d !! "color"))
          user_id created_at updated_at with
  | Some n => mret n
  | None => raise ValidationError
  end.

(** A Note rebuilt from the cached dict goes through the same constraints. *)
Definition Note_again {S} (n : Note) : ES S Note :=
  if valid_text (n_title n) (n_content n) then mret n else raise ValidationError.

(** Truth value of what json.loads returned: a note dict is never empty. *)
Definition truthy (v : cval) : bool :=
  match v with
  | CNote _ => true
  | CNotes l => bool_decide (l ≠ [])
  | CInt z => bool_decide (z ≠ 0)
  end.

(** x.get("updated_at", datetime.min), the sort key of get_notes. *)
Definition updated_key (x : doc) : option Z :=
  match x !! "updated_at" with
  | None => Some datetime_min
  | Some (VTime t) => Some t
  | Some _ => None
  end.

(** note_data_list.sort(key=.., reverse=True): by updated_at, latest first,
    stable. A key that is no timestamp cannot be compared with one: taken as
    a TypeError. *)
Definition sort_updated_desc {S} (l : list doc) : ES S (list doc) :=
  if forallb (λ x, bool_decide (is_Some (updated_key x))) l
  then mret (sort_by (λ x y, bool_decide (default 0 (updated_key y)
                                          ≤ default 0 (updated_key x))) l)
  else raise TypeError.

Definition deleted_filter (include_deleted : bool) : list filter_t :=
  if include_deleted then [] else [("is_deleted", OpEq, VBool false)].

(** *** Searching *)







Module OptimizedNoteService.

Definition create_note (note_data : NoteCreate) (user_id : string)
    : ES world Note :=
  try_except
    (t ← utcnow;
     let note_id : string := pretty (t `quot` 1000) in
     now ← utcnow;
     let note_data_dict : doc :=
       list_to_map
         [("title", VStr (c_title note_data));
          ("content", VStr (c_content note_data));
          ("is_deleted", VBool false);
          ("is_pinned", VBool (c_is_pinned note_data));
          ("format", VStr (c_format note_data));
          ("color", VStr (c_color note_data));
          ("created_at", VTime now);
          ("updated_at", VTime now)] in
     created_note ← firestore_service
       (FirestoreService.create_subcollection_document
          user_id note_id note_data_dict);
     note ← Note_of created_note user_id;
     cache_service (CacheService.set_note note None) ;;
     cache_service (CacheService.invalidate_user_notes user_id) ;;
     cache_service (CacheService.increment_notes_count user_id false 1) ;;
     mret note)
    (λ e, raise (HTTPException 500)).

Definition get_note (note_id user_id : string) : ES world (option Note) :=
  try_except
    (cached_note ← cache_service (CacheService.get_note note_id user_id);
     if bool_decide (truthy <$> cached_note = Some true) then
       match cached_note with
       | Some (CNote n) => n' ← Note_again n; mret (Some n')
       | _ => raise TypeError
       end
     else
       note_data ← firestore_service
         (FirestoreService.get_subcollection_document user_id note_id);
       match note_data with
       | None => mret None
       | Some note_data =>
           note ← Note_of note_data user_id;
           cache_service (CacheService.set_note note None) ;;
           mret (Some note)
       end)
    (λ e, raise (HTTPException 500)).

(** [limit] and [offset] are naturals: the route declares
    Query(20, ge=1, le=100) and Query(0, ge=0). *)
Definition get_notes (user_id : string) (include_deleted : bool)
    (limit offset : nat) : ES world (list Note) :=
  try_except
    (cached_notes ← cache_service
       (CacheService.get_notes user_id include_deleted
          (Z.of_nat limit) (Z.of_nat offset));
     if bool_decide (truthy <$> cached_notes = Some true) then
       match cached_notes with
       | Some (CNotes l) => mapM Note_again l
       | _ => raise TypeError
       end
     else
       let filters := deleted_filter include_deleted in
       note_data_list ← firestore_service
         (FirestoreService.query_subcollection user_id filters
            (Some (limit + offset)%nat));
       note_data_list ← sort_updated_desc note_data_list;
       let note_data_list :=
         if bool_decide (0 < offset)%nat then drop offset note_data_list
         else note_data_list in
       let note_data_list := take limit note_data_list in
       notes ← mapM (λ note_data, Note_of note_data user_id) note_data_list;
       cache_service
         (CacheService.set_notes user_id notes include_deleted
            (Z.of_nat limit) (Z.of_nat offset) None) ;;
       mret notes)
    (λ e, raise (HTTPException 500)).

Definition get_notes_count (user_id : string) (include_deleted : bool)
    : ES world Z :=
  try_except
    (cached_count ← cache_service
       (CacheService.get_notes_count user_id include_deleted);
     match cached_count with
     | Some cached_count => mret cached_count
     | None =>
         let filters := deleted_filter include_deleted in
         note_data_list ← firestore_service
           (FirestoreService.query_subcollection user_id filters None);
         let count := Z.of_nat (length note_data_list) in
         cache_service
           (CacheService.set_notes_count user_id count include_deleted None) ;;
         mret count
     end)
    (λ e, mret 0).

(** The dict update_note sends to the store. *)
Definition update_data (now : Z) (note_data : NoteUpdate) : doc :=
  let d : doc := {["updated_at" := VTime now]} in
  let d := match u_title note_data with
           | Some v => <["title" := VStr v]> d | None => d end in
  let d := match u_content note_data with
           | Some v => <["content" := VStr v]> d | None => d end in
  let d := match u_is_deleted note_data with
           | Some v => <["is_deleted" := VBool v]> d | None => d end in
  let d := match u_is_pinned note_data with
           | Some v => <["is_pinned" := VBool v]> d | None => d end in
  let d := match u_format note_data with
           | Some v => <["format" := VStr v]> d | None => d end in
  let d := match u_color note_data with
           | Some v => <["color" := VStr v]> d | None => d end in
  d.

Definition update_note (note_id : string) (note_data : NoteUpdate)
    (user_id : string) : ES world (option Note) :=
  try_except
    (existing_note ← firestore_service
       (FirestoreService.get_subcollection_document user_id note_id);
     match existing_note with
     | None => mret None
     | Some _ =>
         now ← utcnow;
         updated_note_data ← firestore_service
           (FirestoreService.update_subcollection_document
              user_id note_id (update_data now note_data));
         match updated_note_data with
         | None => mret None
         | Some updated_note_data =>
             note ← Note_of updated_note_data user_id;
             cache_service (CacheService.set_note note None) ;;
             cache_service (CacheService.invalidate_user_notes user_id) ;;
             mret (Some note)
         end
     end)
    (λ e, raise (HTTPException 500)).

Definition delete_note (note_id user_id : string) : ES world bool :=
  try_except
    (existing_note ← firestore_service
       (FirestoreService.get_subcollection_document user_id note_id);
     match existing_note with
     | None => mret false
     | Some _ =>
         now ← utcnow;
         let update_data : doc :=
           list_to_map [("is_deleted", VBool true); ("updated_at", VTime now)] in
         success ← firestore_service
           (FirestoreService.update_subcollection_document
              user_id note_id update_data);
         match success with
         | Some _ =>
             cache_service (CacheService.invalidate_note note_id user_id) ;;
             cache_service (CacheService.invalidate_user_notes user_id) ;;
             cache_service
               (CacheService.increment_notes_count user_id false (-1)) ;;
             cache_service
               (CacheService.increment_notes_count user_id true 1) ;;
             mret true
         | None => mret false
         end
     end)
    (λ e, raise (HTTPException 500)).


End OptimizedNoteService.

(** ** The routes: api/notes.py

    [current_user] is the dict of the verified token. The query parameters
    of a route arrive validated (limit from 1 to 100, offset from 0). *)

(** JSONResponse(status_code=.., content=None) *)
Inductive JSONResponse : Type := mkJSONResponse (status_code : Z).

Module NotesApi.

(** current_user["uid"] *)
Definition uid {S} (current_user : gmap string string) : ES S string :=
  match current_user !! "uid" with
  | Some u => mret u
  | None => raise (KeyError "uid")
  end.

(** except HTTPException: raise
    except Exception as e: raise HTTPException(status_code=500, ..) *)
Definition reraise {S A} (e : exn) : ES S A :=
  match e with
  | HTTPException status_code => raise (HTTPException status_code)
  | _ => raise (HTTPException 500)
  end.

Definition create_note (note_data : NoteCreate)
    (current_user : gmap string string) : ES world Note :=
  try_except
    (user_id ← uid current_user;
     note ← OptimizedNoteService.create_note note_data user_id;
     mret note)
    (λ e, raise (HTTPException 500)).

Definition get_notes (include_deleted : bool) (limit offset : nat)
    (current_user : gmap string string) : ES world (list Note) :=
  try_except
    (user_id ← uid current_user;
     notes ← OptimizedNoteService.get_notes user_id include_deleted
               limit offset;
     mret notes)
    (λ e, raise (HTTPException 500)).

Definition get_note (note_id : string)
    (current_user : gmap string string) : ES world Note :=
  try_except
    (user_id ← uid current_user;
     note ← OptimizedNoteService.get_note note_id user_id;
     match note with
     | None => raise (HTTPException 404)
     | Some note => mret note
     end)
    reraise.

Definition update_note (note_id : string) (note_data : NoteUpdate)
    (current_user : gmap string string) : ES world Note :=
  try_except
    (user_id ← uid current_user;
     note ← OptimizedNoteService.update_note note_id note_data user_id;
     match note with
     | None => raise (HTTPException 404)
     | Some note => mret note
     end)
    reraise.

Definition delete_note (note_id : string)
    (current_user : gmap string string) : ES world JSONResponse :=
  try_except
    (user_id ← uid current_user;
     success ← OptimizedNoteService.delete_note note_id user_id;
     if (success : bool) then mret (mkJSONResponse 204)
     else raise (HTTPException 404))
    reraise.

End NotesApi.

(** ** Vocabulary of the properties *)

(** A computation that always returns: it never hands an exception on. *)
Definition total {S A} (c : ES S A) : Prop :=
  ∀ s, ∃ v s', c s = (inr v, s').

(** A cache operation that never raises, and returns [fallback] whenever the
    Redis client raised during it. *)
Definition benign {A} (c : ES redis A) (fallback : A) : Prop :=
  ∀ r, ∃ v r', c r = (inr v, r') ∧ ((craised r < craised r')%nat → v = fallback).

Definition store_healthy (s : firestore) : Prop :=
  db s = true ∧ ∀ k, sfail s k = false.

Definition cache_healthy (r : redis) : Prop :=
  ∀ k, cfail r k = false.

(** A world with an empty store and an empty cache, both healthy. *)
Definition empty_world (clock : nat → Z) : world :=
  mkWorld (mkFirestore ∅ true (λ _, false) 0 0)
          (mkRedis ∅ (λ _, false) 0 0) clock 0.

(** A clock that advances one millisecond per reading. *)
Definition ms_clock (k : nat) : Z := 1700000000000000 + 1000 * Z.of_nat k.

(** The bodies of the notes of [owner] that a listing or a count is about. *)
Definition matching (owner : string) (include_deleted : bool)
    (m : gmap (string * string) doc) : gmap (string * string) doc :=
  filter (λ kd, kd.1.1 = owner
                ∧ (include_deleted = true
                   ∨ kd.2 !! "is_deleted" = Some (VBool false))) m.

(** The key strings, as values. *)
Definition notes_key (user_id : string) (include_deleted : bool)
    (limit offset : Z) : string :=
  "notes:user:" +:+ user_id +:+ ":deleted:" +:+ pybool include_deleted
  +:+ ":limit:" +:+ pretty limit +:+ ":offset:" +:+ pretty offset.
Definition note_key (note_id user_id : string) : string :=
  "note:" +:+ note_id +:+ ":user:" +:+ user_id.
Definition count_key (user_id : string) (include_deleted : bool) : string :=
  "notes_count:user:" +:+ user_id +:+ ":deleted:" +:+ pybool include_deleted.

(** The cache entry under a key is removed (it expired). *)
Definition expire_entry (key : string) (w : world) : world :=
  mkWorld (fs w) (set_kv (base.delete key) (rd w)) (clock w) (tick w).

(** The integer held under a count key, if any. *)
Definition cached_count (user_id : string) (include_deleted : bool)
    (w : world) : option Z :=
  match kv (rd w) !! count_key user_id include_deleted with
  | Some (CInt z, _) => Some z
  | _ => None
  end.

(** The field a NoteUpdate provides under a name, if any. *)
Definition provided (note_data : NoteUpdate) (field : string) : option fval :=
  if decide (field = "title") then VStr <$> u_title note_data
  else if decide (field = "content") then VStr <$> u_content note_data
  else if decide (field = "is_deleted") then VBool <$> u_is_deleted note_data
  else if decide (field = "is_pinned") then VBool <$> u_is_pinned note_data
  else if decide (field = "format") then VStr <$> u_format note_data
  else if decide (field = "color") then VStr <$> u_color note_data
  else None.

(** The identifier create_note derives from the clock of a world. *)
Definition next_id (w : world) : string :=
  pretty (clock w (tick w) `quot` 1000).

(** The Note built from a record, or the exception building it raises. *)
Definition note_of (d : doc) (user_id : string) : exn + Note :=
  (Note_of d user_id tt).1.

(** The operations the repository exposes, as requests. *)
Inductive request : Type :=
| Create (note_data : NoteCreate) (user_id : string)
| Get (note_id user_id : string)
| List (user_id : string) (include_deleted : bool) (limit offset : nat)
| Update (note_id : string) (note_data : NoteUpdate) (user_id : string)
| Delete (note_id user_id : string)
| Count (user_id : string) (include_deleted : bool).

(** The world after serving a request, whatever it returned. *)
Definition serve (q : request) (w : world) : world :=
  match q with
  | Create note_data user_id =>
      (OptimizedNoteService.create_note note_data user_id w).2
  | Get note_id user_id => (OptimizedNoteService.get_note note_id user_id w).2
  | List user_id include_deleted limit offset =>
      (OptimizedNoteService.get_notes user_id include_deleted limit offset w).2
  | Update note_id note_data user_id =>
      (OptimizedNoteService.update_note note_id note_data user_id w).2
  | Delete note_id user_id =>
      (OptimizedNoteService.delete_note note_id user_id w).2
  | Count user_id include_deleted =>
      (OptimizedNoteService.get_notes_count user_id include_deleted w).2
  end.

(** The world after serving a sequence of requests, first to last. *)
Fixpoint serve_all (qs : list request) (w : world) : world :=
  match qs with
  | [] => w
  | q :: qs' => serve_all qs' (serve q w)
  end.





(** The page a listing is meant to return: of all matching notes of the owner,
    latest update first, those ranked offset+1 to offset+limit. *)
Definition page (owner : string) (include_deleted : bool) (limit offset : nat)
    (m : gmap (string * string) doc) : list (string * Z) :=
  take limit (drop offset
    (sort_by (λ a b, bool_decide (b.2 ≤ a.2))
       (omap (λ '((o, id), d),
                if decide (o = owner) then
                  match d !! "updated_at" with
                  | Some (VTime t) =>
                      if bool_decide (include_deleted = true
                                      ∨ d !! "is_deleted" = Some (VBool false))
                      then Some (id, t) else None
                  | _ => None
                  end
                else None)
             (map_to_list m)))).

(** No colon occurs in the string. *)
Fixpoint colon_free (s : string) : bool :=
  match s with
  | "" => true
  | String c s' => negb (bool_decide (c = ":"%char)) && colon_free s'
  end.

(** A Redis client whose k-th call raises, and no other. *)
Definition redis_failing_at (k : nat) (m : gmap string (cval * Z)) : redis :=
  mkRedis m (λ i, bool_decide (i = k)) 0 0.

(** A Firestore client whose k-th call raises, and no other. *)
Definition firestore_failing_at (k : nat) (m : gmap (string * string) doc)
    : firestore :=
  mkFirestore m true (λ i, bool_decide (i = k)) 0 0.

Definition healthy_firestore (m : gmap (string * string) doc) : firestore :=
  mkFirestore m true (λ _, false) 0 0.

Definition healthy_redis (m : gmap string (cval * Z)) : redis :=
  mkRedis m (λ _, false) 0 0.

Definition sample_note : NoteCreate :=
  mkNoteCreate "title" "content" false false "text" "primary".

(** The body create_note writes for [sample_note] at time [t], with the
    given is_deleted. *)
Definition sample_doc (deleted : bool) (t : Z) : doc :=
  list_to_map
    [("title", VStr "title"); ("content", VStr "content");
     ("is_deleted", VBool deleted); ("is_pinned", VBool false);
     ("format", VStr "text"); ("color", VStr "primary");
     ("created_at", VTime t); ("updated_at", VTime t)].

(** The dict delete_note sends to the store. *)
Definition delete_data (now : Z) : doc :=
  list_to_map [("is_deleted", VBool true); ("updated_at", VTime now)].

(** Identifier and updated_at of each note of a listing. *)
Definition ids_and_times (r : exn + list Note) : option (list (string * Z)) :=
  match r with
  | inr l => Some ((λ n, (n_id n, n_updated_at n)) <$> l)
  | inl _ => None
  end.

(** Identifier and updated_at of the k-th note (from 0) that a run of
    create_note calls writes under [ms_clock] from an empty world: each call
    reads the clock twice. *)
Definition created (k : nat) : string * Z :=
  (pretty (1700000000000 + 2 * Z.of_nat k), ms_clock (2 * k + 1)).



(** The note create_note returns. *)
Definition created_note (note_data : NoteCreate) (user_id id : string) (now : Z)
    : Note :=
  mkNote id (c_title note_data) (c_content note_data) false
    (c_is_pinned note_data) (c_format note_data) (c_color note_data)
    user_id now now.

(** The records sorted as get_notes sorts them, or the exception raised. *)
Definition sorted_desc (l : list doc) : exn + list doc :=
  (sort_updated_desc l tt).1.

(** The notes built from a list of records, or the first exception raised. *)
Definition notes_of (user_id : string) (l : list doc) : exn + list Note :=
  (mapM (λ d, Note_of d user_id) l tt).1.

(** The records query_subcollection returns for an owner: the matching ones
    in the store's order, cut to limit + offset of them unless that is 0. *)
Definition fetched (user_id : string) (include_deleted : bool) (limit offset : nat)
    (m : gmap (string * string) doc) : list doc :=
  (λ p, with_id p.1 p.2)
    <$> (let found :=
           filter (λ p, forallb (Firestore.holds p.2) (deleted_filter include_deleted))
                  (Firestore.subcollection user_id m) in
         match (limit + offset)%nat with
         | S n => take (S n) found
         | O => found
         end).



(** ** Unfolding the layers *)

Ltac es_unfold :=
  unfold try_except, mbind, ES_bind, mret, ES_ret, raise, gets, modify in *.

Ltac redis_unfold :=
  unfold CacheService.get_redis_client,
    CacheService.get_notes_cache_key, CacheService.get_note_cache_key,
    CacheService.get_user_notes_count_key,
    Redis.get, Redis.setex, Redis.keys, Redis.delete, Redis.incrby,
    Redis.expire, Redis.call, Redis.count_call, Redis.count_raise, set_kv in *;
  es_unfold.

Ltac firestore_unfold :=
  unfold FirestoreService.create_subcollection_document,
    FirestoreService.get_subcollection_document,
    FirestoreService.update_subcollection_document,
    FirestoreService.query_subcollection,
    FirestoreService.get_subcollection,
    Firestore.set, Firestore.get, Firestore.update, Firestore.stream,
    Firestore.call, Firestore.count_call, Firestore.count_raise, set_docs in *;
  es_unfold.

(** Case analysis on every test in the goal, then rewriting with what the
    cases say. *)
Ltac by_cases :=
  repeat (case_match; simplify_eq/=);
  repeat match goal with
         | H : ?x = _ |- context [?x] => rewrite H
         end;
  simpl; try done.

(** ** Cache keys *)

Section keys.

Lemma string_app_cons (x : ascii) (a b : string) :
  String x a +:+ b = String x (a +:+ b).
Proof. reflexivity. Qed.

Lemma string_app_nil (b : string) : "" +:+ b = b.
Proof. reflexivity. Qed.

Lemma string_app_assoc (a b c : string) : (a +:+ b) +:+ c = a +:+ (b +:+ c).
Proof.
  induction a as [|x a IH]; [done|].
  by rewrite !string_app_cons, IH.
Qed.

Lemma colon_free_after_colon (a b : string) :
  colon_free (a +:+ String ":" b) = false.
Proof.
  induction a as [|x a IH]; [done|].
  rewrite string_app_cons. simpl. by rewrite IH, andb_false_r.
Qed.

(** A string is cut in one way only at its last colon. *)
Lemma split_last_colon (p p' x x' : string) :
  colon_free x = true → colon_free x' = true →
  p +:+ String ":" x = p' +:+ String ":" x' → p = p' ∧ x = x'.
Proof.
  intros Hx Hx'. revert p'.
  induction p as [|c p IH]; intros [|c' p'] E;
    rewrite ?string_app_cons, ?string_app_nil in E.
  - by simplify_eq.
  - injection E as _ E. rewrite E, colon_free_after_colon in Hx. done.
  - injection E as _ E. rewrite <- E, colon_free_after_colon in Hx'. done.
  - injection E as -> E. destruct (IH _ E) as [-> ->]. done.
Qed.

Lemma colon_free_pretty_N_go (x : N) (s : string) :
  colon_free s = true → colon_free (pretty_N_go x s) = true.
Proof.
  revert s. induction (N.lt_wf_0 x) as [x _ IH]; intros s Hs.
  destruct (decide (x = 0%N)) as [->|Hx].
  - by rewrite pretty_N_go_0.
  - rewrite pretty_N_go_step by lia. apply IH.
    + apply N.div_lt; lia.
    + simpl. rewrite Hs, andb_true_r.
      unfold pretty_N_char. by repeat case_match.
Qed.

Lemma colon_free_pretty_Z (z : Z) : colon_free (pretty z) = true.
Proof.
  destruct z as [|p|p]; [done | |].
  - unfold pretty, pretty_Z, pretty, pretty_positive, pretty, pretty_N.
    case_decide; [done|]. by apply colon_free_pretty_N_go.
  - unfold pretty, pretty_Z. simpl.
    unfold pretty, pretty_positive, pretty, pretty_N.
    case_decide; [done|]. by apply colon_free_pretty_N_go.
Qed.

Lemma colon_free_pybool (b : bool) : colon_free (pybool b) = true.
Proof. by destruct b. Qed.

Lemma pybool_inj (b b' : bool) : pybool b = pybool b' → b = b'.
Proof. by destruct b, b'. Qed.

Lemma notes_key_fields (u : string) (b : bool) (l o : Z) :
  notes_key u b l o =
  (((((("notes:user:" +:+ u) +:+ String ":" "deleted") +:+ String ":" (pybool b))
      +:+ String ":" "limit") +:+ String ":" (pretty l))
     +:+ String ":" "offset") +:+ String ":" (pretty o).
Proof. unfold notes_key. by rewrite !string_app_assoc. Qed.

Lemma notes_key_inj (u u' : string) (b b' : bool) (l l' o o' : Z) :
  notes_key u b l o = notes_key u' b' l' o' →
  (u, b, l, o) = (u', b', l', o').
Proof.
  rewrite !notes_key_fields. intros E.
  apply split_last_colon in E as [E Ho]; [|apply colon_free_pretty_Z..].
  apply split_last_colon in E as [E _]; [|done..].
  apply split_last_colon in E as [E Hl]; [|apply colon_free_pretty_Z..].
  apply split_last_colon in E as [E _]; [|done..].
  apply split_last_colon in E as [E Hb]; [|apply colon_free_pybool..].
  apply split_last_colon in E as [E _]; [|done..].
  apply (inj (String.app _)) in E.
  apply (inj pretty) in Ho, Hl. apply pybool_inj in Hb. by subst.
Qed.

End keys.

(** C9. The three key derivations are deterministic: each returns a string
    fixed by its parameters alone, whatever the state of the process, which
    it leaves as it was; and the list key tells any two distinct parameter
    tuples apart. *)
Theorem cache_keys_deterministic_list_key_injective :
  (∀ note_id user_id r,
     CacheService.get_note_cache_key note_id user_id r
     = (inr (note_key note_id user_id), r))
  ∧ (∀ user_id include_deleted limit offset r,
       CacheService.get_notes_cache_key user_id include_deleted limit offset r
       = (inr (notes_key user_id include_deleted limit offset), r))
  ∧ (∀ user_id include_deleted r,
       CacheService.get_user_notes_count_key user_id include_deleted r
       = (inr (count_key user_id include_deleted), r))
  ∧ (∀ u b l o u' b' l' o' r r',
       (u, b, l, o) ≠ (u', b', l', o') →
       (CacheService.get_notes_cache_key u b l o r).1
       ≠ (CacheService.get_notes_cache_key u' b' l' o' r').1).
Proof.
  split_and!; try done.
  intros u b l o u' b' l' o' r r' Hne E. apply Hne.
  apply notes_key_inj.
  change (inr (notes_key u b l o) = inr (notes_key u' b' l' o') :> exn + string)
    in E.
  congruence.
Qed.

Lemma cache_keys_deterministic_list_key_injective_witness :
  ("a", false, 10, 0) ≠ ("a", false, 10, 10)
  ∧ ∀ r r',
      (CacheService.get_notes_cache_key "a" false 10 0 r).1
      ≠ (CacheService.get_notes_cache_key "a" false 10 10 r').1.
Proof.
  split; [done|].
  intros r r'.
  apply (proj2 (proj2 (proj2 cache_keys_deterministic_list_key_injective))).
  done.
Defined.

(** ** The cache layer never raises *)

Ltac benign_tac :=
  intros r; redis_unfold; simpl;
  repeat (case_match; simplify_eq/=);
  (eexists _, _; split; [reflexivity | simpl; intros; first [done | lia]]).

Section cache_layer.

Import CacheService.

Lemma get_notes_benign u b l o : benign (get_notes u b l o) None.
Proof. unfold get_notes. benign_tac. Qed.

Lemma get_note_benign n u : benign (get_note n u) None.
Proof. unfold get_note. benign_tac. Qed.

Lemma get_notes_count_benign u b : benign (get_notes_count u b) None.
Proof. unfold get_notes_count. benign_tac. Qed.

Lemma set_notes_benign u ns b l o t : benign (set_notes u ns b l o t) false.
Proof. unfold set_notes. benign_tac. Qed.

Lemma set_note_benign n t : benign (set_note n t) false.
Proof. unfold set_note. benign_tac. Qed.

Lemma set_notes_count_benign u c b t : benign (set_notes_count u c b t) false.
Proof. unfold set_notes_count. benign_tac. Qed.

Lemma invalidate_user_notes_benign u : benign (invalidate_user_notes u) false.
Proof. unfold invalidate_user_notes. benign_tac. Qed.

Lemma increment_notes_count_benign u b i :
  benign (increment_notes_count u b i) false.
Proof. unfold increment_notes_count. benign_tac. Qed.

Lemma benign_total {A} (c : ES redis A) (x : A) : benign c x → total c.
Proof. intros H r. destruct (H r) as (v & r' & E & _). eauto. Qed.

(** invalidate_note drops the result of the invalidate_user_notes it calls:
    only a failure of its own two calls makes it return False. *)
Lemma invalidate_note_result n u r :
  ∃ r', invalidate_note n u r
        = (inr (negb (cfail r (ccalls r) || cfail r (S (ccalls r)))), r').
Proof.
  unfold invalidate_note. redis_unfold. simpl.
  destruct (cfail r (ccalls r)); simpl; [eauto|].
  destruct (cfail r (S (ccalls r))); simpl; [eauto|].
  match goal with
  | |- context [invalidate_user_notes u ?r0] =>
      destruct (invalidate_user_notes_benign u r0) as (v & r' & -> & _)
  end.
  eauto.
Qed.

Lemma invalidate_note_total n u : total (invalidate_note n u).
Proof. intros r. destruct (invalidate_note_result n u r) as [r' E]. eauto. Qed.

End cache_layer.

(** C3, as the claim states it, fails for invalidate_note: when the client
    raises inside the invalidate_user_notes it calls (here at the fourth
    call), that failure is absorbed there and invalidate_note returns True. *)
Lemma invalidate_note_true_despite_failure :
  ¬ benign (CacheService.invalidate_note "n1" "u1") false.
Proof.
  intros H. destruct (H (redis_failing_at 3 ∅)) as (v & r' & E & Hv).
  vm_compute in E. injection E as <- <-.
  assert (true = false) by (apply Hv; simpl; lia). done.
Qed.

(** C3 (amended). No operation of the cache layer hands an exception to its
    caller. When the Redis client raises during a read (get_notes, get_note,
    get_notes_count) the read returns None; when it raises during set_notes,
    set_note, set_notes_count, invalidate_user_notes or increment_notes_count
    the operation returns False. invalidate_note returns False exactly when
    one of its own two client calls raises, and True otherwise, also when the
    invalidate_user_notes it calls failed. The three key derivations use no
    client: they return their key and leave the state as it was. *)
Theorem cache_layer_failures_do_not_propagate :
  (∀ u b l o, benign (CacheService.get_notes u b l o) None)
  ∧ (∀ n u, benign (CacheService.get_note n u) None)
  ∧ (∀ u b, benign (CacheService.get_notes_count u b) None)
  ∧ (∀ u ns b l o t, benign (CacheService.set_notes u ns b l o t) false)
  ∧ (∀ n t, benign (CacheService.set_note n t) false)
  ∧ (∀ u c b t, benign (CacheService.set_notes_count u c b t) false)
  ∧ (∀ u, benign (CacheService.invalidate_user_notes u) false)
  ∧ (∀ u b i, benign (CacheService.increment_notes_count u b i) false)
  ∧ (∀ n u r, ∃ r',
       CacheService.invalidate_note n u r
       = (inr (negb (cfail r (ccalls r) || cfail r (S (ccalls r)))), r'))
  ∧ (∀ n u r, ∃ k, CacheService.get_note_cache_key n u r = (inr k, r))
  ∧ (∀ u b l o r, ∃ k, CacheService.get_notes_cache_key u b l o r = (inr k, r))
  ∧ (∀ u b r, ∃ k, CacheService.get_user_notes_count_key u b r = (inr k, r)).
Proof.
  split_and!; [| | | | | | | | |by eexists..].
  - apply get_notes_benign.
  - apply get_note_benign.
  - apply get_notes_count_benign.
  - apply set_notes_benign.
  - apply set_note_benign.
  - apply set_notes_count_benign.
  - apply invalidate_user_notes_benign.
  - apply increment_notes_count_benign.
  - apply invalidate_note_result.
Qed.

Lemma cache_layer_failures_do_not_propagate_witness :
  let r := redis_failing_at 1 ∅ in
  (craised r < craised (CacheService.get_notes "u1" false 10 0 r).2)%nat
  ∧ (CacheService.get_notes "u1" false 10 0 r).1 = inr None.
Proof.
  intros r. split; [vm_compute; lia|].
  destruct (proj1 cache_layer_failures_do_not_propagate "u1" false 10 0 r)
    as (v & r' & E & Hv).
  rewrite E. simpl. f_equal. apply Hv.
  replace r' with (CacheService.get_notes "u1" false 10 0 r).2
    by (rewrite E; reflexivity).
  vm_compute. lia.
Defined.

(** ** The store adapter, call by call *)

Section store_layer.

Import FirestoreService.

Lemma create_subcollection_document_eq uid nid data s :
  create_subcollection_document uid nid data s =
  if db s then
    if sfail s (scalls s)
    then (inl StoreError,
          mkFirestore (docs s) (db s) (sfail s) (S (scalls s)) (S (sraised s)))
    else (inr (with_id nid data),
          mkFirestore (<[(uid, nid) := data]> (docs s)) (db s) (sfail s)
            (S (scalls s)) (sraised s))
  else (inl NotInitialized, Firestore.count_raise s).
Proof. firestore_unfold. simpl. by_cases. Qed.

Lemma get_subcollection_document_eq uid nid s :
  get_subcollection_document uid nid s =
  if db s then
    if sfail s (scalls s)
    then (inl StoreError,
          mkFirestore (docs s) (db s) (sfail s) (S (scalls s)) (S (sraised s)))
    else (inr (with_id nid <$> docs s !! (uid, nid)), Firestore.count_call s)
  else (inl NotInitialized, Firestore.count_raise s).
Proof. firestore_unfold. simpl. by_cases. Qed.

Lemma update_subcollection_document_eq uid nid data s :
  update_subcollection_document uid nid data s =
  if db s then
    if sfail s (scalls s)
    then (inl StoreError,
          mkFirestore (docs s) (db s) (sfail s) (S (scalls s)) (S (sraised s)))
    else
      match docs s !! (uid, nid) with
      | Some d =>
          get_subcollection_document uid nid
            (mkFirestore (<[(uid, nid) := data ∪ d]> (docs s)) (db s)
               (sfail s) (S (scalls s)) (sraised s))
      | None =>
          (inl StoreError,
           mkFirestore (docs s) (db s) (sfail s) (S (scalls s))
             (S (sraised s)))
      end
  else (inl NotInitialized, Firestore.count_raise s).
Proof.
  unfold update_subcollection_document.
  unfold get_subcollection, Firestore.update, Firestore.call,
    Firestore.count_call, Firestore.count_raise, set_docs.
  es_unfold. simpl.
  destruct (db s) eqn:Hdb; simpl; rewrite ?Hdb; [|done].
  destruct (sfail s (scalls s)); simpl; rewrite ?Hdb; [done|].
  destruct (docs s !! (uid, nid)); simpl; rewrite ?Hdb; [|done].
  by destruct (get_subcollection_document _ _ _) as [[?|?] ?].
Qed.

Lemma query_subcollection_eq uid filters limit s :
  query_subcollection uid filters limit s =
  if db s then
    if sfail s (scalls s)
    then (inl StoreError,
          mkFirestore (docs s) (db s) (sfail s) (S (scalls s)) (S (sraised s)))
    else
      let found :=
        filter (λ p, forallb (Firestore.holds p.2) filters)
               (Firestore.subcollection uid (docs s)) in
      (inr ((λ p, with_id p.1 p.2)
              <$> match limit with
                  | Some (S n) => take (S n) found
                  | _ => found
                  end),
       Firestore.count_call s)
  else (inl NotInitialized, Firestore.count_raise s).
Proof. firestore_unfold. simpl. by_cases. Qed.

End store_layer.

(** ** Steps of the repository that do not touch the state *)

Lemma Note_of_pure (d : doc) (u : string) :
  ∃ r : exn + Note, ∀ S (s : S), Note_of d u s = (r, s).
Proof.
  unfold Note_of, getitem. es_unfold.
  repeat case_match; eauto.
Qed.

Lemma Note_again_pure (n : Note) :
  ∃ r : exn + Note, ∀ S (s : S), Note_again n s = (r, s).
Proof. unfold Note_again. es_unfold. case_match; eauto. Qed.

Lemma mapM_pure {A B} (f : A → ∀ S, ES S B) (l : list A) :
  (∀ x, ∃ r, ∀ S (s : S), f x S s = (r, s)) →
  ∃ r : exn + list B, ∀ S (s : S), mapM (λ x, f x S) l s = (r, s).
Proof.
  intros Hf. induction l as [|x l [rl IH]]; simpl.
  - eexists. intros. reflexivity.
  - destruct (Hf x) as [[e|y] Hx].
    + exists (inl e). intros S s. es_unfold. by rewrite Hx.
    + destruct rl as [e|ys].
      * exists (inl e). intros S s. es_unfold. by rewrite Hx, IH.
      * exists (inr (y :: ys)). intros S s. es_unfold. by rewrite Hx, IH.
Qed.

Lemma sort_updated_desc_pure (l : list doc) :
  ∃ r : exn + list doc, ∀ S (s : S), sort_updated_desc l s = (r, s).
Proof. unfold sort_updated_desc. es_unfold. case_match; eauto. Qed.

Lemma mapM_Note_of_pure (u : string) (l : list doc) :
  ∃ r : exn + list Note, ∀ S (s : S), mapM (λ d, Note_of d u) l s = (r, s).
Proof.
  apply (mapM_pure (λ d S, @Note_of S d u)). intros d. apply Note_of_pure.
Qed.

Lemma mapM_Note_again_pure (l : list Note) :
  ∃ r : exn + list Note, ∀ S (s : S), mapM Note_again l s = (r, s).
Proof.
  apply (mapM_pure (λ n S, @Note_again S n)). intros n. apply Note_again_pure.
Qed.

(** ** Stepping through a repository operation *)

Ltac cache_step :=
  match goal with
  | |- context [CacheService.get_notes ?u ?b ?l ?o ?r] =>
      destruct (get_notes_benign u b l o r) as (? & ? & -> & _)
  | |- context [CacheService.get_note ?n ?u ?r] =>
      destruct (get_note_benign n u r) as (? & ? & -> & _)
  | |- context [CacheService.get_notes_count ?u ?b ?r] =>
      destruct (get_notes_count_benign u b r) as (? & ? & -> & _)
  | |- context [CacheService.set_notes ?u ?ns ?b ?l ?o ?t ?r] =>
      destruct (set_notes_benign u ns b l o t r) as (? & ? & -> & _)
  | |- context [CacheService.set_note ?n ?t ?r] =>
      destruct (set_note_benign n t r) as (? & ? & -> & _)
  | |- context [CacheService.set_notes_count ?u ?c ?b ?t ?r] =>
      destruct (set_notes_count_benign u c b t r) as (? & ? & -> & _)
  | |- context [CacheService.invalidate_user_notes ?u ?r] =>
      destruct (invalidate_user_notes_benign u r) as (? & ? & -> & _)
  | |- context [CacheService.invalidate_note ?n ?u ?r] =>
      destruct (invalidate_note_total n u r) as (? & ? & ->)
  | |- context [CacheService.increment_notes_count ?u ?b ?i ?r] =>
      destruct (increment_notes_count_benign u b i r) as (? & ? & -> & _)
  end.

Ltac pure_step :=
  match goal with
  | |- context [mapM (λ d, Note_of d ?u) ?l ?s] =>
      let r := fresh "r" in let E := fresh "E" in
      destruct (mapM_Note_of_pure u l) as [r E]; rewrite (E _ s); clear E;
      destruct r
  | |- context [mapM Note_again ?l ?s] =>
      let r := fresh "r" in let E := fresh "E" in
      destruct (mapM_Note_again_pure l) as [r E]; rewrite (E _ s); clear E;
      destruct r
  | |- context [Note_of ?d ?u ?s] =>
      let r := fresh "r" in let E := fresh "E" in
      destruct (Note_of_pure d u) as [r E]; rewrite (E _ s); clear E;
      destruct r
  | |- context [Note_again ?n ?s] =>
      let r := fresh "r" in let E := fresh "E" in
      destruct (Note_again_pure n) as [r E]; rewrite (E _ s); clear E;
      destruct r
  | |- context [sort_updated_desc ?l ?s] =>
      let r := fresh "r" in let E := fresh "E" in
      destruct (sort_updated_desc_pure l) as [r E]; rewrite (E _ s); clear E;
      destruct r
  end.

Ltac store_step :=
  progress
    (repeat rewrite ?create_subcollection_document_eq,
       ?update_subcollection_document_eq, ?get_subcollection_document_eq,
       ?query_subcollection_eq;
     unfold Firestore.count_call, Firestore.count_raise; simpl).

Ltac service_unfold :=
  unfold firestore_service, cache_service, utcnow; es_unfold; simpl.

(** Case analysis on a test whose subject has no test inside. *)
Ltac inner_case :=
  match goal with
  | |- context [match ?x with _ => _ end] =>
      lazymatch x with
      | context [match _ with _ => _ end] => fail
      | _ => destruct x eqn:?
      end
  end.

(** Use what is known of the health of the two clients. *)
Ltac health_step :=
  match goal with
  | H : db ?s = true |- context [db ?s] => rewrite H
  | H : ∀ k, sfail ?s k = false |- context [sfail ?s _] => rewrite H
  | H : ∀ k, cfail ?r k = false |- context [cfail ?r _] => rewrite H
  | H : docs ?s !! ?k = _ |- context [docs ?s !! ?k] => rewrite H
  | |- context [<[?k := _]> _ !! ?k] => rewrite lookup_insert_eq
  end.

(** Use an equation at hand for a call that occurs in the goal. *)
Ltac known_step :=
  match goal with
  | H : ?c = (_, _) |- context [?c] => rewrite H
  end.

Ltac service_steps :=
  repeat first [progress simpl | known_step | cache_step | pure_step
               | store_step | health_step | inner_case; simplify_eq/=].

(** ** Store failures *)

Section store_failures.

Import OptimizedNoteService.

Lemma create_note_store_failure nd u w :
  (sraised (fs w) < sraised (fs (create_note nd u w).2))%nat →
  (create_note nd u w).1 = inl (HTTPException 500).
Proof.
  unfold create_note. service_unfold. service_steps;
    simpl; intros; first [done | lia].
Qed.

Lemma get_note_store_failure n u w :
  (sraised (fs w) < sraised (fs (get_note n u w).2))%nat →
  (get_note n u w).1 = inl (HTTPException 500).
Proof.
  unfold get_note. service_unfold. service_steps;
    simpl; intros; first [done | lia].
Qed.

Lemma get_notes_store_failure u b l o w :
  (sraised (fs w) < sraised (fs (get_notes u b l o w).2))%nat →
  (get_notes u b l o w).1 = inl (HTTPException 500).
Proof.
  unfold get_notes. service_unfold. service_steps;
    simpl; intros; first [done | lia].
Qed.

Lemma update_note_store_failure n nu u w :
  (sraised (fs w) < sraised (fs (update_note n nu u w).2))%nat →
  (update_note n nu u w).1 = inl (HTTPException 500).
Proof.
  unfold update_note. service_unfold. service_steps;
    simpl; intros; first [done | lia].
Qed.

Lemma delete_note_store_failure n u w :
  (sraised (fs w) < sraised (fs (delete_note n u w).2))%nat →
  (delete_note n u w).1 = inl (HTTPException 500).
Proof.
  unfold delete_note. service_unfold. service_steps;
    simpl; intros; first [done | lia].
Qed.

Lemma get_notes_count_store_failure u b w :
  (sraised (fs w) < sraised (fs (get_notes_count u b w).2))%nat →
  (get_notes_count u b w).1 = inr 0.
Proof.
  unfold get_notes_count. service_unfold. service_steps;
    simpl; intros; first [done | lia].
Qed.

End store_failures.

(** C4, as the claim states it, fails for count: with one active note stored
    and a store whose first call raises, get_notes_count returns 0, a count
    like any other. *)
Lemma count_returns_zero_on_store_failure :
  let w := mkWorld (firestore_failing_at 0 {[("u1", "1") := sample_doc false 5]})
                   (healthy_redis ∅) ms_clock 0 in
  let out := OptimizedNoteService.get_notes_count "u1" false w in
  ¬ ((sraised (fs w) < sraised (fs out.2))%nat → ∃ e, out.1 = inl e).
Proof.
  intros w out H. destruct H as [e He]; [vm_compute; lia|].
  vm_compute in He. discriminate.
Qed.

(** C4 (amended). When a call to the store raises during create, get, list,
    update or delete, the operation fails with HTTP status 500; count does
    not fail: it returns 0. *)
Theorem store_failure_surfaces_except_for_count (w : world) :
  (∀ note_data user_id,
     let out := OptimizedNoteService.create_note note_data user_id w in
     (sraised (fs w) < sraised (fs out.2))%nat →
     out.1 = inl (HTTPException 500))
  ∧ (∀ note_id user_id,
       let out := OptimizedNoteService.get_note note_id user_id w in
       (sraised (fs w) < sraised (fs out.2))%nat →
       out.1 = inl (HTTPException 500))
  ∧ (∀ user_id include_deleted limit offset,
       let out :=
         OptimizedNoteService.get_notes user_id include_deleted limit offset w in
       (sraised (fs w) < sraised (fs out.2))%nat →
       out.1 = inl (HTTPException 500))
  ∧ (∀ note_id note_data user_id,
       let out := OptimizedNoteService.update_note note_id note_data user_id w in
       (sraised (fs w) < sraised (fs out.2))%nat →
       out.1 = inl (HTTPException 500))
  ∧ (∀ note_id user_id,
       let out := OptimizedNoteService.delete_note note_id user_id w in
       (sraised (fs w) < sraised (fs out.2))%nat →
       out.1 = inl (HTTPException 500))
  ∧ (∀ user_id include_deleted,
       let out := OptimizedNoteService.get_notes_count user_id include_deleted w in
       (sraised (fs w) < sraised (fs out.2))%nat →
       out.1 = inr 0).
Proof.
  split_and!; intros; subst out.
  - by apply create_note_store_failure.
  - by apply get_note_store_failure.
  - by apply get_notes_store_failure.
  - by apply update_note_store_failure.
  - by apply delete_note_store_failure.
  - by apply get_notes_count_store_failure.
Qed.

Lemma store_failure_surfaces_except_for_count_witness :
  let w := mkWorld (firestore_failing_at 1 {[("u1", "1") := sample_doc false 5]})
                   (healthy_redis ∅) ms_clock 0 in
  let out := OptimizedNoteService.delete_note "1" "u1" w in
  (sraised (fs w) < sraised (fs out.2))%nat
  ∧ out.1 = inl (HTTPException 500).
Proof.
  intros w out.
  assert (sraised (fs w) < sraised (fs out.2))%nat as H by (vm_compute; lia).
  split; [exact H|].
  exact (proj1 (proj2 (proj2 (proj2 (proj2
           (store_failure_surfaces_except_for_count w))))) "1" "u1" H).
Defined.

(** ** What each operation does to the store *)

Section store_effects.

Import OptimizedNoteService.

Ltac effect_tac :=
  service_unfold; service_steps; simpl; eauto.





Lemma update_note_docs n nu u w :
  docs (fs (update_note n nu u w).2) = docs (fs w)
  ∨ ∃ d, docs (fs w) !! (u, n) = Some d
         ∧ docs (fs (update_note n nu u w).2)
           = <[(u, n) := update_data (clock w (tick w)) nu ∪ d]> (docs (fs w)).
Proof. unfold update_note. effect_tac. Qed.

Lemma delete_note_docs n u w :
  docs (fs (delete_note n u w).2) = docs (fs w)
  ∨ ∃ d, docs (fs w) !! (u, n) = Some d
         ∧ docs (fs (delete_note n u w).2)
           = <[(u, n) := delete_data (clock w (tick w)) ∪ d]> (docs (fs w)).
Proof. unfold delete_note, delete_data. effect_tac. Qed.

End store_effects.

(** ** Partial update *)

Lemma lookup_insert_if_provided {A} (k field : string) (o : option A)
    (g : A → fval) (d : doc) :
  match o with Some v => <[k := g v]> d | None => d end !! field =
  if decide (k = field)
  then match o with Some v => Some (g v) | None => d !! field end
  else d !! field.
Proof.
  destruct o; rewrite ?lookup_insert; by case_decide.
Qed.

Lemma update_data_lookup (now : Z) (note_data : NoteUpdate) (field : string) :
  OptimizedNoteService.update_data now note_data !! field =
  if decide (field = "updated_at") then Some (VTime now)
  else provided note_data field.
Proof.
  unfold OptimizedNoteService.update_data, provided. cbv zeta.
  rewrite !lookup_insert_if_provided, lookup_singleton.
  repeat case_decide; simplify_eq; try done; by repeat case_match.
Qed.

Lemma update_data_union_lookup (now : Z) (note_data : NoteUpdate) (d : doc)
    (field : string) :
  (OptimizedNoteService.update_data now note_data ∪ d) !! field =
  if decide (field = "updated_at") then Some (VTime now)
  else match provided note_data field with
       | Some v => Some v
       | None => d !! field
       end.
Proof.
  rewrite lookup_union, update_data_lookup.
  case_decide; [by destruct (d !! field)|].
  destruct (provided note_data field); by destruct (d !! field).
Qed.

(** C5. With the store answering, update_note on a note that is not in the
    owner's sub-collection returns None and leaves the store as it was; on a
    stored note it writes a body in which updated_at is the time of the call,
    every field the input provides has the provided value, and every other
    field is as it was stored. *)
Theorem update_note_writes_provided_fields_only
    (note_id : string) (note_data : NoteUpdate) (user_id : string) (w : world) :
  store_healthy (fs w) →
  let out := OptimizedNoteService.update_note note_id note_data user_id w in
  match docs (fs w) !! (user_id, note_id) with
  | None => out.1 = inr None ∧ docs (fs out.2) = docs (fs w)
  | Some d =>
      ∃ d', docs (fs out.2) = <[(user_id, note_id) := d']> (docs (fs w))
            ∧ ∀ field,
                d' !! field =
                if decide (field = "updated_at")
                then Some (VTime (clock w (tick w)))
                else match provided note_data field with
                     | Some v => Some v
                     | None => d !! field
                     end
  end.
Proof.
  intros [Hdb Hf] out. subst out.
  destruct (docs (fs w) !! (user_id, note_id)) as [d|] eqn:Hd.
  - exists (OptimizedNoteService.update_data (clock w (tick w)) note_data ∪ d).
    split; [|intros; apply update_data_union_lookup].
    unfold OptimizedNoteService.update_note. service_unfold.
    service_steps; simpl; congruence.
  - unfold OptimizedNoteService.update_note. service_unfold.
    service_steps; simpl; (done || congruence).
Qed.

Lemma update_note_writes_provided_fields_only_witness :
  let w := mkWorld (healthy_firestore {[("u1", "1") := sample_doc false 5]})
                   (healthy_redis ∅) ms_clock 0 in
  let note_data := mkNoteUpdate (Some "new title") None None None None None in
  store_healthy (fs w)
  ∧ ∃ d', docs (fs (OptimizedNoteService.update_note "1" note_data "u1" w).2)
          = <[("u1", "1") := d']> (docs (fs w))
          ∧ d' !! "title" = Some (VStr "new title")
          ∧ d' !! "content" = Some (VStr "content").
Proof.
  intros w note_data.
  assert (store_healthy (fs w)) as H by (split; [reflexivity|intros; reflexivity]).
  split; [exact H|].
  destruct (update_note_writes_provided_fields_only "1" note_data "u1" w H)
    as (d' & Hd' & Hfields).
  exists d'. split; [exact Hd'|]. split.
  - rewrite Hfields. reflexivity.
  - rewrite Hfields. reflexivity.
Defined.

(** ** Identity of a note under update and delete *)

Lemma delete_data_lookup (now : Z) (field : string) :
  delete_data now !! field =
  if decide (field = "is_deleted") then Some (VBool true)
  else if decide (field = "updated_at") then Some (VTime now)
  else None.
Proof.
  unfold delete_data. simpl.
  rewrite !lookup_insert, lookup_empty.
  repeat case_decide; simplify_eq; done.
Qed.

Lemma delete_note_healthy (note_id user_id : string) (w : world) (d : doc) :
  store_healthy (fs w) →
  docs (fs w) !! (user_id, note_id) = Some d →
  (OptimizedNoteService.delete_note note_id user_id w).1 = inr true
  ∧ docs (fs (OptimizedNoteService.delete_note note_id user_id w).2)
    = <[(user_id, note_id) := delete_data (clock w (tick w)) ∪ d]> (docs (fs w)).
Proof.
  intros [Hdb Hf] Hd.
  unfold OptimizedNoteService.delete_note, delete_data. service_unfold.
  service_steps; simpl; split; congruence.
Qed.

(** C7. For a stored note, update and delete leave the record in the same
    owner's sub-collection under the same identifier, with the created_at it
    had, and touch no other record; delete does not remove it: with the store
    answering it returns True and the record then has is_deleted=true and the
    time of the call as updated_at. *)
Theorem update_and_delete_keep_identity
    (note_id user_id : string) (w : world) (d : doc) :
  docs (fs w) !! (user_id, note_id) = Some d →
  (∀ note_data,
     let out := OptimizedNoteService.update_note note_id note_data user_id w in
     (∃ d', docs (fs out.2) !! (user_id, note_id) = Some d'
            ∧ d' !! "created_at" = d !! "created_at")
     ∧ ∀ k, k ≠ (user_id, note_id) → docs (fs out.2) !! k = docs (fs w) !! k)
  ∧ (let out := OptimizedNoteService.delete_note note_id user_id w in
     (∃ d', docs (fs out.2) !! (user_id, note_id) = Some d'
            ∧ d' !! "created_at" = d !! "created_at"
            ∧ (store_healthy (fs w) →
               out.1 = inr true
               ∧ d' !! "is_deleted" = Some (VBool true)
               ∧ d' !! "updated_at" = Some (VTime (clock w (tick w)))))
     ∧ ∀ k, k ≠ (user_id, note_id) → docs (fs out.2) !! k = docs (fs w) !! k).
Proof.
  intros Hd. split.
  - intros note_data out. subst out.
    destruct (update_note_docs note_id note_data user_id w)
      as [-> | (d0 & Hd0 & ->)].
    + split; [eauto|done].
    + rewrite Hd in Hd0. injection Hd0 as <-. split.
      * eexists. split; [apply lookup_insert_eq|].
        by rewrite update_data_union_lookup.
      * intros k Hk. by rewrite lookup_insert_ne.
  - intros out. subst out. split.
    + assert (∃ d',
                docs (fs (OptimizedNoteService.delete_note note_id user_id w).2)
                !! (user_id, note_id) = Some d'
                ∧ d' !! "created_at" = d !! "created_at") as (d' & Hd' & Hc).
      { destruct (delete_note_docs note_id user_id w) as [-> | (d0 & Hd0 & ->)].
        - eauto.
        - rewrite Hd in Hd0. injection Hd0 as <-.
          eexists. split; [apply lookup_insert_eq|].
          rewrite lookup_union, delete_data_lookup. simpl.
          by destruct (d !! "created_at"). }
      exists d'. split; [done|]. split; [done|].
      intros Hh.
      destruct (delete_note_healthy note_id user_id w d Hh Hd) as [Hr E].
      rewrite E, lookup_insert_eq in Hd'. injection Hd' as <-.
      split; [done|].
      rewrite !lookup_union, !delete_data_lookup. simpl.
      split; [by destruct (d !! "is_deleted") | by destruct (d !! "updated_at")].
    + intros k Hk.
      destruct (delete_note_docs note_id user_id w) as [-> | (d0 & Hd0 & ->)];
        [done|]. by rewrite lookup_insert_ne.
Qed.

Lemma update_and_delete_keep_identity_witness :
  let w := mkWorld (healthy_firestore {[("u1", "1") := sample_doc false 5]})
                   (healthy_redis ∅) ms_clock 0 in
  docs (fs w) !! ("u1", "1") = Some (sample_doc false 5)
  ∧ ∃ d', docs (fs (OptimizedNoteService.delete_note "1" "u1" w).2)
          !! ("u1", "1") = Some d'
          ∧ d' !! "created_at" = Some (VTime 5).
Proof.
  intros w.
  assert (docs (fs w) !! ("u1", "1") = Some (sample_doc false 5)) as H
    by apply lookup_singleton_eq.
  split; [exact H|].
  destruct (proj2 (update_and_delete_keep_identity "1" "u1" w _ H))
    as [(d' & H1 & H2 & _) _].
  exists d'. split; [exact H1|]. rewrite H2. vm_compute. reflexivity.
Defined.

(** ** The soft-deleted state *)





(** ** Reading one note *)

Lemma Note_of_eq {S} (d : doc) (u : string) (s : S) :
  Note_of d u s = (note_of d u, s).
Proof.
  destruct (Note_of_pure d u) as [r E]. unfold note_of. by rewrite !E.
Qed.



Lemma cache_get_note_miss (note_id user_id : string) (r : redis) :
  kv r !! note_key note_id user_id = None →
  ∃ r', CacheService.get_note note_id user_id r = (inr None, r').
Proof.
  intros Hk. unfold note_key in Hk.
  unfold CacheService.get_note. redis_unfold. simpl.
  destruct (cfail r (ccalls r)); simpl; [eauto|].
  destruct (cfail r (S (ccalls r))); simpl; [eauto|].
  rewrite Hk. simpl. eauto.
Qed.



(** ** Invalidation and the counters *)





Lemma lookup_foldr_delete_None {A} (m : gmap string A) (ks : list string) k :
  m !! k = None → foldr delete m ks !! k = None.
Proof.
  intros Hk. induction ks as [|k' ks IH]; simpl; [done|].
  destruct (decide (k' = k)) as [->|Hne].
  - apply lookup_delete_eq.
  - by rewrite lookup_delete_ne.
Qed.

Lemma lookup_foldr_delete_elem {A} (m : gmap string A) (ks : list string) k :
  k ∈ ks → foldr delete m ks !! k = None.
Proof.
  induction ks as [|k' ks IH]; simpl; [by intros ?%elem_of_nil|].
  intros [->|Hin]%elem_of_cons.
  - apply lookup_delete_eq.
  - destruct (decide (k' = k)) as [->|Hne].
    + apply lookup_delete_eq.
    + rewrite lookup_delete_ne by done. auto.
Qed.

Lemma lookup_delete_matching {A} (m : gmap string A) (pat k : string) :
  glob pat k = true →
  foldr delete m (filter (λ k, glob pat k = true) (map_to_list m).*1) !! k = None.
Proof.
  intros Hg. destruct (m !! k) as [v|] eqn:Hk.
  - apply lookup_foldr_delete_elem. apply list_elem_of_filter. split; [done|].
    apply list_elem_of_fmap. exists (k, v). split; [done|].
    by apply elem_of_map_to_list.
  - by apply lookup_foldr_delete_None.
Qed.


Section healthy_cache.

Import CacheService.

Local Arguments glob : simpl never.




End healthy_cache.


Section delete_twice.

Import OptimizedNoteService.


End delete_twice.

Lemma delete_data_union_is_deleted (now : Z) (d : doc) :
  (delete_data now ∪ d) !! "is_deleted" = Some (VBool true).
Proof.
  rewrite lookup_union, delete_data_lookup. simpl. by destruct (d !! "is_deleted").
Qed.

Lemma delete_data_union_updated_at (now : Z) (d : doc) :
  (delete_data now ∪ d) !! "updated_at" = Some (VTime now).
Proof.
  rewrite lookup_union, delete_data_lookup. simpl. by destruct (d !! "updated_at").
Qed.




(** ** Counting *)

(** C1, first part, fails on the code: create_note invalidates the owner's
    count entries and then increments the count key, which is absent by then,
    so the entry restarts at 1 (at -1 after a delete). After two creates the
    store holds two active notes and count returns 1; after a create and a
    delete it holds none and count returns -1. *)
Theorem count_after_creates_and_deletes :
  let w0 := empty_world ms_clock in
  let w2 := serve_all [Create sample_note "u1"; Create sample_note "u1"] w0 in
  let w1 := serve_all [Create sample_note "u1"; Delete (next_id w0) "u1"] w0 in
  size (matching "u1" false (docs (fs w2))) = 2%nat
  ∧ (OptimizedNoteService.get_notes_count "u1" false w2).1 = inr 1
  ∧ size (matching "u1" false (docs (fs w1))) = 0%nat
  ∧ (OptimizedNoteService.get_notes_count "u1" false w1).1 = inr (-1).
Proof.
  intros w0 w2 w1. split_and!; vm_compute; reflexivity.
Qed.

(** ** Listing *)

(** C2 fails on the code: the store is asked for limit+offset records before
    anything is ordered, and hands back the first ones by identifier. With 25
    notes created in a row, list(limit=10, offset=10) fetches the 20 oldest,
    orders them and returns the 10 oldest of all, ranked 16 to 25, where the
    page ranked 11 to 20 was due. *)
Theorem list_second_page_of_25_notes :
  let w := serve_all (replicate 25 (Create sample_note "u1"))
             (empty_world ms_clock) in
  size (matching "u1" false (docs (fs w))) = 25%nat
  ∧ ids_and_times (OptimizedNoteService.get_notes "u1" false 10 10 w).1
    = Some (created <$> rev (seq 0 10))
  ∧ page "u1" false 10 10 (docs (fs w)) = created <$> rev (seq 5 10)
  ∧ ids_and_times (OptimizedNoteService.get_notes "u1" false 10 10 w).1
    ≠ Some (page "u1" false 10 10 (docs (fs w))).
Proof.
  intros w.
  assert (ids_and_times (OptimizedNoteService.get_notes "u1" false 10 10 w).1
          = Some (created <$> rev (seq 0 10))) as H1 by (vm_compute; reflexivity).
  assert (page "u1" false 10 10 (docs (fs w)) = created <$> rev (seq 5 10))
    as H2 by (vm_compute; reflexivity).
  split_and!; [vm_compute; reflexivity | exact H1 | exact H2 |].
  rewrite H1, H2. vm_compute. discriminate.
Qed.

(** When the fetch reaches every matching note the listing is the page: here
    the last page of the same 25 notes, ranked 16 to 25. *)
Lemma list_last_page_of_25_notes :
  let w := serve_all (replicate 25 (Create sample_note "u1"))
             (empty_world ms_clock) in
  ids_and_times (OptimizedNoteService.get_notes "u1" false 10 15 w).1
  = Some (page "u1" false 10 15 (docs (fs w))).
Proof. intros w. vm_compute. reflexivity. Qed.

(** ** Counting from the store *)

Lemma insert_by_Permutation {A} (le : A → A → bool) (x : A) (l : list A) :
  insert_by le x l ≡ₚ x :: l.
Proof.
  induction l as [|y l IH]; simpl; [done|].
  destruct (le x y); [done|]. rewrite IH. apply Permutation_swap.
Qed.

Lemma sort_by_Permutation {A} (le : A → A → bool) (l : list A) :
  sort_by le l ≡ₚ l.
Proof.
  induction l as [|x l IH]; simpl; [done|].
  unfold sort_by in *. simpl. by rewrite insert_by_Permutation, IH.
Qed.

Lemma map_size_filter_list {K A} `{Countable K} (P : K * A → Prop)
    `{!∀ x, Decision (P x)} (m : gmap K A) :
  size (filter P m) = length (filter P (map_to_list m)).
Proof.
  induction m as [|k x m Hk IH] using map_ind.
  - by rewrite map_filter_empty, map_to_list_empty.
  - rewrite map_to_list_insert by done. rewrite filter_cons.
    destruct (decide (P (k, x))) as [HP|HP].
    + rewrite map_filter_insert_True by done.
      rewrite map_size_insert_None by (by rewrite map_lookup_filter_None; left).
      simpl. by rewrite IH.
    + rewrite map_filter_insert_not' by naive_solver. exact IH.
Qed.

Lemma length_filter_omap {A B} (g : A → option B) (P : B → Prop) (Q : A → Prop)
    `{!∀ y, Decision (P y)} `{!∀ x, Decision (Q x)} (l : list A) :
  (∀ x, match g x with Some y => P y ↔ Q x | None => ¬ Q x end) →
  length (filter P (omap g l)) = length (filter Q l).
Proof.
  intros Hg. induction l as [|x l IH]; [done|].
  specialize (Hg x). rewrite (filter_cons Q).
  change (omap g (x :: l))
    with (match g x with Some y => y :: omap g l | None => omap g l end).
  destruct (g x) as [y|].
  - rewrite filter_cons.
    destruct (decide (P y)), (decide (Q x)); try tauto;
      rewrite ?length_cons; by rewrite IH.
  - by rewrite decide_False.
Qed.

Lemma subcollection_matching_length (u : string) (b : bool)
    (m : gmap (string * string) doc) :
  length (filter (λ p, forallb (Firestore.holds p.2) (deleted_filter b))
            (Firestore.subcollection u m))
  = size (matching u b m).
Proof.
  unfold Firestore.subcollection, matching.
  rewrite sort_by_Permutation, map_size_filter_list.
  apply length_filter_omap.
  intros [[o id] d]. simpl. case_decide; [|tauto]. subst o.
  destruct b; simpl.
  - tauto.
  - rewrite andb_true_r. rewrite bool_decide_spec.
    split; [intros ?; auto | intros [_ [?|?]]; done].
Qed.

Lemma cache_get_notes_count_miss (user_id : string) (b : bool) (r : redis) :
  kv r !! count_key user_id b = None →
  ∃ r', CacheService.get_notes_count user_id b r = (inr None, r').
Proof.
  intros Hk. unfold count_key in Hk.
  unfold CacheService.get_notes_count. redis_unfold. simpl.
  destruct (cfail r (ccalls r)); simpl; [eauto|].
  destruct (cfail r (S (ccalls r))); simpl; [eauto|].
  rewrite Hk. simpl. eauto.
Qed.

(** What holds of the count: once the count entry is gone, the next count
    with the store answering returns the number of matching records of the
    store, whatever the state of the cache. *)
Lemma count_recomputes_after_expiry
    (user_id : string) (include_deleted : bool) (w : world) :
  store_healthy (fs w) →
  (OptimizedNoteService.get_notes_count user_id include_deleted
     (expire_entry (count_key user_id include_deleted) w)).1
  = inr (Z.of_nat (size (matching user_id include_deleted (docs (fs w))))).
Proof.
  intros [Hdb Hf].
  destruct (cache_get_notes_count_miss user_id include_deleted
              (rd (expire_entry (count_key user_id include_deleted) w)))
    as [r' E]; [apply lookup_delete_eq|].
  unfold OptimizedNoteService.get_notes_count. service_unfold.
  simpl in E. rewrite E. simpl. store_step. rewrite Hdb, Hf. simpl.
  cache_step. simpl.
  by rewrite length_fmap, subcollection_matching_length.
Qed.

(** ** The cache layer, entry by entry *)

Lemma lookup_foldr_delete_not_elem {A} (m : gmap string A) (ks : list string) k :
  k ∉ ks → foldr delete m ks !! k = m !! k.
Proof.
  induction ks as [|k' ks IH]; simpl; [done|].
  intros Hk. apply not_elem_of_cons in Hk as [Hne Hk].
  rewrite lookup_delete_ne by done. auto.
Qed.

Lemma purge_lookup {A} (m : gmap string A) (pat k : string) :
  foldr delete m (filter (λ k, glob pat k = true) (map_to_list m).*1) !! k
  = if glob pat k then None else m !! k.
Proof.
  destruct (glob pat k) eqn:Hg.
  - by apply lookup_delete_matching.
  - apply lookup_foldr_delete_not_elem.
    rewrite list_elem_of_filter. intros [Hg' _]. congruence.
Qed.


(** Neither invalidation pattern matches a note-by-id key: the fifth
    character of the key is a colon, that of either pattern an s. *)
Lemma note_key_matches_no_pattern (n u u' : string) :
  glob ("notes:user:" +:+ u' +:+ ":*") (note_key n u) = false
  ∧ glob ("notes_count:user:" +:+ u' +:+ ":*") (note_key n u) = false.
Proof. split; reflexivity. Qed.

Section cache_entries.

Import CacheService.

Local Arguments glob : simpl never.

Ltac healthy_tac Hc :=
  redis_unfold; simpl; repeat (rewrite Hc; simpl).


Lemma set_notes_healthy u ns b l o t r :
  cache_healthy r →
  ∃ r', set_notes u ns b l o t r = (inr true, r')
        ∧ cfail r' = cfail r
        ∧ kv r' = <[notes_key u b l o := (CNotes ns, ttl_or t)]> (kv r).
Proof. intros Hc. unfold set_notes. healthy_tac Hc. eauto. Qed.

Lemma set_notes_count_healthy u c b t r :
  cache_healthy r →
  ∃ r', set_notes_count u c b t r = (inr true, r')
        ∧ cfail r' = cfail r
        ∧ kv r' = <[count_key u b := (CInt c, ttl_or t)]> (kv r).
Proof. intros Hc. unfold set_notes_count. healthy_tac Hc. eauto. Qed.

Lemma get_note_healthy n u r :
  cache_healthy r →
  ∃ r', get_note n u r = (inr (fst <$> kv r !! note_key n u), r')
        ∧ cfail r' = cfail r ∧ kv r' = kv r.
Proof.
  intros Hc. unfold get_note, note_key. healthy_tac Hc.
  destruct (kv r !! _) as [[v t]|]; simpl; eauto.
Qed.

Lemma get_notes_healthy u b l o r :
  cache_healthy r →
  ∃ r', get_notes u b l o r = (inr (fst <$> kv r !! notes_key u b l o), r')
        ∧ cfail r' = cfail r ∧ kv r' = kv r.
Proof.
  intros Hc. unfold get_notes, notes_key. healthy_tac Hc.
  destruct (kv r !! _) as [[v t]|]; simpl; eauto.
Qed.

Lemma get_notes_count_healthy u b r :
  cache_healthy r →
  ∃ r', get_notes_count u b r
        = (inr (match kv r !! count_key u b with
                | Some (CInt z, _) => Some z
                | _ => None
                end), r')
        ∧ cfail r' = cfail r ∧ kv r' = kv r.
Proof.
  intros Hc. unfold get_notes_count, count_key. healthy_tac Hc.
  destruct (kv r !! _) as [[[?|?|?] t]|]; simpl; eauto.
Qed.

(** What a read of the cache layer can return, whatever the client does. *)
Lemma get_note_any n u r :
  ∃ v r', get_note n u r = (inr v, r')
          ∧ kv r' = kv r
          ∧ (v = None ∨ v = fst <$> kv r !! note_key n u).
Proof.
  unfold get_note, note_key. redis_unfold. simpl.
  repeat (case_match; simplify_eq/=); eauto 10.
  all: eexists _, _; split; [reflexivity|]; split; [reflexivity|]; right.
  all: by match goal with H : _ !! _ = _ |- _ => rewrite H end.
Qed.



(** invalidate_user_notes keeps every entry whose key matches neither of its
    two patterns, whatever the client does. *)
Lemma invalidate_user_notes_any u r k :
  glob ("notes:user:" +:+ u +:+ ":*") k = false →
  glob ("notes_count:user:" +:+ u +:+ ":*") k = false →
  ∃ v r', invalidate_user_notes u r = (inr v, r')
          ∧ kv r' !! k = kv r !! k.
Proof.
  intros H1 H2. unfold invalidate_user_notes. redis_unfold. simpl.
  repeat (case_match; simplify_eq/=);
    (eexists _, _; split; [reflexivity|]; simpl).
  all: repeat match goal with
       | H : filter (λ k, glob ?pat k = true) (map_to_list ?m).*1 = ?ks |- _ =>
           let H' := fresh in
           pose proof (purge_lookup m pat k) as H';
           rewrite H in H'; simpl in H'; rewrite ?H1, ?H2 in H';
           try rewrite H'; clear H
       end.
  all: done.
Qed.


End cache_entries.

Section cache_properties.

Import CacheService.

Local Arguments glob : simpl never.





(** X3. Whatever the Redis client does, invalidate_user_notes returns without
    raising and leaves every note-by-id entry, of any owner, as it was. *)
Theorem invalidate_user_notes_keeps_note_entries (u n u' : string) (r : redis) :
  ∃ v r', invalidate_user_notes u r = (inr v, r')
          ∧ kv r' !! note_key n u' = kv r !! note_key n u'.
Proof.
  apply invalidate_user_notes_any; apply note_key_matches_no_pattern.
Qed.

End cache_properties.

Section cache_properties_2.

Import CacheService.

Local Arguments glob : simpl never.







End cache_properties_2.

(** ** Notes built from records *)

(** What a record must hold for [Note_of] to build a given note. *)
Lemma note_of_inv (d : doc) (u : string) (n : Note) :
  note_of d u = inr n →
  d !! "id" = Some (VStr (n_id n))
  ∧ d !! "title" = Some (VStr (n_title n))
  ∧ d !! "content" = Some (VStr (n_content n))
  ∧ d !! "is_deleted" = Some (VBool (n_is_deleted n))
  ∧ d !! "created_at" = Some (VTime (n_created_at n))
  ∧ d !! "updated_at" = Some (VTime (n_updated_at n))
  ∧ n_user_id n = u
  ∧ valid_text (n_title n) (n_content n) = true.
Proof.
  unfold note_of, Note_of, getitem. es_unfold. simpl. intros H.
  repeat (case_match; simplify_eq/=).
  unfold validate in *. simplify_option_eq.
  repeat match goal with
         | H : as_bool ?v = Some _ |- _ => destruct v; simplify_eq/=
         | H : as_str ?v = Some _ |- _ => destruct v; simplify_eq/=
         | H : as_time ?v = Some _ |- _ => destruct v; simplify_eq/=
         end.
  destruct (valid_text _ _) eqn:Hv; simplify_eq/=. done.
Qed.

Lemma Note_again_valid {S} (n : Note) (s : S) :
  valid_text (n_title n) (n_content n) = true → Note_again n s = (inr n, s).
Proof. intros Hv. unfold Note_again. by rewrite Hv. Qed.




Section create_then_get.

Import OptimizedNoteService.


Lemma get_note_coherent
    (note_id user_id : string) (w : world) (d : doc) (note : Note) :
  store_healthy (fs w) →
  docs (fs w) !! (user_id, note_id) = Some d →
  note_of (with_id note_id d) user_id = inr note →
  (kv (rd w) !! note_key note_id user_id = None
   ∨ ∃ ttl, kv (rd w) !! note_key note_id user_id = Some (CNote note, ttl)) →
  (get_note note_id user_id w).1 = inr (Some note).
Proof.
  intros [Hdb Hf] Hd Hn Hk.
  destruct (get_note_any note_id user_id (rd w)) as (v & r1 & E1 & _ & Hv).
  assert (v = None ∨ v = Some (CNote note)) as Hv'.
  { destruct Hv as [Hv | Hv]; [by left|].
    destruct Hk as [Hk | [ttl Hk]]; rewrite Hk in Hv; simpl in Hv; auto. }
  clear Hv Hk.
  unfold get_note. service_unfold. rewrite E1. simpl.
  destruct Hv' as [-> | ->]; simpl.
  - store_step. rewrite Hdb, Hf, Hd. simpl. rewrite Note_of_eq, Hn. simpl.
    cache_step. done.
  - rewrite Note_again_valid by (apply (note_of_inv _ _ _ Hn)). done.
Qed.

(** X6. With the store answering, get_note returns the note the store holds
    whenever the cache has no entry for it or holds that same note, whatever
    the Redis client does: answer, or raise at any call. *)
Theorem get_note_returns_stored_note
    (note_id user_id : string) (w : world) (d : doc) (note : Note) :
  store_healthy (fs w) →
  docs (fs w) !! (user_id, note_id) = Some d →
  note_of (with_id note_id d) user_id = inr note →
  (kv (rd w) !! note_key note_id user_id = None
   ∨ ∃ ttl, kv (rd w) !! note_key note_id user_id = Some (CNote note, ttl)) →
  (get_note note_id user_id w).1 = inr (Some note).
Proof. apply get_note_coherent. Qed.

Lemma get_note_returns_stored_note_witness :
  let w := mkWorld (healthy_firestore {[("u1", "1") := sample_doc false 5]})
                   (redis_failing_at 0 ∅) ms_clock 0 in
  let note := mkNote "1" "title" "content" false false "text" "primary" "u1" 5 5 in
  store_healthy (fs w)
  ∧ docs (fs w) !! ("u1", "1") = Some (sample_doc false 5)
  ∧ note_of (with_id "1" (sample_doc false 5)) "u1" = inr note
  ∧ kv (rd w) !! note_key "1" "u1" = None
  ∧ (get_note "1" "u1" w).1 = inr (Some note).
Proof.
  intros w note.
  assert (store_healthy (fs w)) as H1 by (split; [reflexivity|intros; reflexivity]).
  assert (docs (fs w) !! ("u1", "1") = Some (sample_doc false 5)) as H2
    by apply lookup_singleton_eq.
  assert (note_of (with_id "1" (sample_doc false 5)) "u1" = inr note) as H3
    by reflexivity.
  assert (kv (rd w) !! note_key "1" "u1" = None) as H4 by apply lookup_empty.
  split_and!; [exact H1|exact H2|exact H3|exact H4|].
  exact (get_note_returns_stored_note "1" "u1" w _ note H1 H2 H3 (or_introl H4)).
Defined.



End create_then_get.

(** ** Hits, misses and absent notes *)

Lemma mapM_Note_again_valid {S} (ns : list Note) (s : S) :
  Forall (λ n, valid_text (n_title n) (n_content n) = true) ns →
  mapM Note_again ns s = (inr ns, s).
Proof.
  induction 1 as [|n ns Hn _ IH]; simpl; [done|].
  es_unfold. by rewrite Note_again_valid, IH.
Qed.

Section hits_and_misses.

Import OptimizedNoteService.

(** X8. With the Redis client answering, a read whose cache entry is present
    is answered from the cache alone: get_note returns the cached note,
    get_notes the cached non-empty page, get_notes_count the cached integer
    (0 included), and the store client is not called, so the answer is the
    same when the store is down or holds something else. *)
Theorem cache_hit_makes_no_store_call (w : world) :
  cache_healthy (rd w) →
  (∀ n u note ttl,
     kv (rd w) !! note_key n u = Some (CNote note, ttl) →
     valid_text (n_title note) (n_content note) = true →
     (get_note n u w).1 = inr (Some note) ∧ fs (get_note n u w).2 = fs w)
  ∧ (∀ u b l o ns ttl,
       kv (rd w) !! notes_key u b (Z.of_nat l) (Z.of_nat o)
       = Some (CNotes ns, ttl) →
       ns ≠ [] →
       Forall (λ n, valid_text (n_title n) (n_content n) = true) ns →
       (get_notes u b l o w).1 = inr ns ∧ fs (get_notes u b l o w).2 = fs w)
  ∧ (∀ u b z ttl,
       kv (rd w) !! count_key u b = Some (CInt z, ttl) →
       (get_notes_count u b w).1 = inr z
       ∧ fs (get_notes_count u b w).2 = fs w).
Proof.
  intros Hc. split_and!.
  - intros n u note ttl Hk Hv.
    destruct (get_note_healthy n u (rd w) Hc) as (r1 & E1 & _).
    rewrite Hk in E1. simpl in E1.
    unfold get_note. service_unfold. rewrite E1. simpl.
    rewrite Note_again_valid by done. simpl. by destruct w.
  - intros u b l o ns ttl Hk Hne Hv.
    destruct (get_notes_healthy u b (Z.of_nat l) (Z.of_nat o) (rd w) Hc)
      as (r1 & E1 & _).
    rewrite Hk in E1. simpl in E1.
    unfold get_notes. service_unfold. rewrite E1. simpl.
    rewrite bool_decide_eq_true_2 by (by rewrite bool_decide_eq_true_2).
    rewrite mapM_Note_again_valid by done. simpl. by destruct w.
  - intros u b z ttl Hk.
    destruct (get_notes_count_healthy u b (rd w) Hc) as (r1 & E1 & _).
    rewrite Hk in E1. simpl in E1.
    unfold get_notes_count. service_unfold. rewrite E1. simpl. by destruct w.
Qed.

Lemma cache_hit_makes_no_store_call_witness :
  let w := mkWorld (firestore_failing_at 0 ∅)
                   (healthy_redis {[count_key "u1" false := (CInt 0, 300)]})
                   ms_clock 0 in
  cache_healthy (rd w)
  ∧ kv (rd w) !! count_key "u1" false = Some (CInt 0, 300)
  ∧ (get_notes_count "u1" false w).1 = inr 0
  ∧ fs (get_notes_count "u1" false w).2 = fs w.
Proof.
  intros w.
  assert (cache_healthy (rd w)) as H1 by (intros k; reflexivity).
  assert (kv (rd w) !! count_key "u1" false = Some (CInt 0, 300)) as H2
    by apply lookup_singleton_eq.
  split; [exact H1|]. split; [exact H2|].
  exact (proj2 (proj2 (cache_hit_makes_no_store_call w H1)) "u1" false 0 300 H2).
Defined.

(** X9. A cached empty page is not a hit: with both clients answering,
    get_notes finds the empty list under the page's key, takes it for a miss
    and queries the store. *)
Theorem empty_cached_page_is_a_miss
    (u : string) (b : bool) (l o : nat) (ttl : Z) (w : world) :
  store_healthy (fs w) → cache_healthy (rd w) →
  kv (rd w) !! notes_key u b (Z.of_nat l) (Z.of_nat o) = Some (CNotes [], ttl) →
  scalls (fs (get_notes u b l o w).2) = S (scalls (fs w)).
Proof.
  intros [Hdb Hf] Hc Hk.
  destruct (get_notes_healthy u b (Z.of_nat l) (Z.of_nat o) (rd w) Hc)
    as (r1 & E1 & _).
  rewrite Hk in E1. simpl in E1.
  unfold get_notes. service_unfold. rewrite E1. simpl.
  store_step. rewrite Hdb, Hf. simpl.
  service_steps; simpl; done.
Qed.

Lemma empty_cached_page_is_a_miss_witness :
  let w := mkWorld (healthy_firestore ∅)
                   (healthy_redis {[notes_key "u1" false 10 0 := (CNotes [], 300)]})
                   ms_clock 0 in
  store_healthy (fs w) ∧ cache_healthy (rd w)
  ∧ kv (rd w) !! notes_key "u1" false 10 0 = Some (CNotes [], 300)
  ∧ scalls (fs (get_notes "u1" false 10 0 w).2) = 1%nat.
Proof.
  intros w.
  assert (store_healthy (fs w)) as H1 by (split; [reflexivity|intros; reflexivity]).
  assert (cache_healthy (rd w)) as H2 by (intros k; reflexivity).
  assert (kv (rd w) !! notes_key "u1" false 10 0 = Some (CNotes [], 300)) as H3
    by apply lookup_singleton_eq.
  split_and!; [exact H1|exact H2|exact H3|].
  exact (empty_cached_page_is_a_miss "u1" false 10 0 300 w H1 H2 H3).
Defined.

(** X10. With the store answering, update_note and delete_note on a note that
    is not in the owner's sub-collection, be it under another owner or
    nowhere, return None and False, write nothing to the store and make no
    call to the cache. *)
Theorem absent_note_is_not_found_and_nothing_changes
    (note_id user_id : string) (w : world) :
  store_healthy (fs w) →
  docs (fs w) !! (user_id, note_id) = None →
  (∀ note_data,
     let out := update_note note_id note_data user_id w in
     out.1 = inr None ∧ docs (fs out.2) = docs (fs w) ∧ rd out.2 = rd w)
  ∧ (let out := delete_note note_id user_id w in
     out.1 = inr false ∧ docs (fs out.2) = docs (fs w) ∧ rd out.2 = rd w).
Proof.
  intros [Hdb Hf] Hd. split.
  - intros note_data. unfold update_note. service_unfold. store_step.
    rewrite Hdb, Hf, Hd. simpl. done.
  - unfold delete_note. service_unfold. store_step.
    rewrite Hdb, Hf, Hd. simpl. done.
Qed.

Lemma absent_note_is_not_found_and_nothing_changes_witness :
  let w := mkWorld (healthy_firestore {[("u2", "1") := sample_doc false 5]})
                   (healthy_redis ∅) ms_clock 0 in
  store_healthy (fs w)
  ∧ docs (fs w) !! ("u1", "1") = None
  ∧ (delete_note "1" "u1" w).1 = inr false
  ∧ docs (fs (delete_note "1" "u1" w).2) = docs (fs w).
Proof.
  intros w.
  assert (store_healthy (fs w)) as H1 by (split; [reflexivity|intros; reflexivity]).
  assert (docs (fs w) !! ("u1", "1") = None) as H2
    by (apply lookup_singleton_ne; intros [=]).
  split; [exact H1|]. split; [exact H2|].
  destruct (proj2 (absent_note_is_not_found_and_nothing_changes "1" "u1" w H1 H2))
    as (R & D & _).
  split; [exact R | exact D].
Defined.

End hits_and_misses.

(** ** Reading after a write *)

Section read_after_write.

Import OptimizedNoteService.









End read_after_write.

(** ** Listing on a miss *)

Lemma sort_updated_desc_eq {S} (l : list doc) (s : S) :
  sort_updated_desc l s = (sorted_desc l, s).
Proof.
  destruct (sort_updated_desc_pure l) as [r E]. unfold sorted_desc. by rewrite !E.
Qed.

Lemma mapM_Note_of_eq {S} (u : string) (l : list doc) (s : S) :
  mapM (λ d, Note_of d u) l s = (notes_of u l, s).
Proof.
  destruct (mapM_Note_of_pure u l) as [r E]. unfold notes_of. by rewrite !E.
Qed.

Lemma cache_get_notes_miss (u : string) (b : bool) (l o : Z) (r : redis) :
  kv r !! notes_key u b l o = None →
  ∃ r', CacheService.get_notes u b l o r = (inr None, r').
Proof.
  intros Hk. unfold notes_key in Hk.
  unfold CacheService.get_notes. redis_unfold. simpl.
  destruct (cfail r (ccalls r)); simpl; [eauto|].
  destruct (cfail r (S (ccalls r))); simpl; [eauto|].
  rewrite Hk. simpl. eauto.
Qed.

Lemma get_notes_miss (u : string) (b : bool) (l o : nat) (w : world)
    (notes : list Note) :
  kv (rd w) !! notes_key u b (Z.of_nat l) (Z.of_nat o) = None →
  (OptimizedNoteService.get_notes u b l o w).1 = inr notes →
  ∃ sorted,
    sorted_desc (fetched u b l o (docs (fs w))) = inr sorted
    ∧ notes_of u (take l (drop o sorted)) = inr notes.
Proof.
  intros Hk.
  destruct (cache_get_notes_miss u b _ _ (rd w) Hk) as [r' E].
  unfold OptimizedNoteService.get_notes. service_unfold. rewrite E. simpl.
  store_step.
  destruct (db (fs w)); simpl; [|done].
  destruct (sfail (fs w) (scalls (fs w))); simpl; [done|].
  rewrite sort_updated_desc_eq. fold (fetched u b l o (docs (fs w))).
  destruct (sorted_desc _) as [e|sorted]; simpl; [done|].
  rewrite mapM_Note_of_eq.
  replace (if bool_decide (0 < o)%nat then drop o sorted else sorted)
    with (drop o sorted) by (by destruct o).
  destruct (notes_of u _) as [e|ns] eqn:Hns; simpl; [done|].
  cache_step. simpl. intros [= <-]. eauto.
Qed.

Lemma notes_of_Forall2 (u : string) (l : list doc) (ns : list Note) :
  notes_of u l = inr ns → Forall2 (λ d n, note_of d u = inr n) l ns.
Proof.
  unfold notes_of. revert ns. induction l as [|d l IH]; intros ns; simpl.
  - intros [= <-]. constructor.
  - es_unfold. rewrite (Note_of_eq d u tt). 
    destruct (note_of d u) as [e|n] eqn:Hn; simpl; [done|].
    destruct (mapM _ l tt) as [[e|ys] []] eqn:Hl; simpl; [done|].
    intros [= <-]. constructor; [done|]. by apply IH.
Qed.

Lemma insert_by_key_sorted {A} (k : A → Z) (x : A) (l : list A) :
  StronglySorted (λ a b, k b ≤ k a) l →
  StronglySorted (λ a b, k b ≤ k a)
    (insert_by (λ a b, bool_decide (k b ≤ k a)) x l).
Proof.
  induction 1 as [|y l Hl IH Hy]; simpl.
  - repeat constructor.
  - case_bool_decide as Hxy.
    + constructor; [by constructor|]. constructor; [done|].
      eapply Forall_impl; [exact Hy|]. simpl. lia.
    + constructor; [done|].
      eapply Permutation_Forall; [symmetry; apply insert_by_Permutation|].
      constructor; [lia|done].
Qed.

Lemma sort_by_key_sorted {A} (k : A → Z) (l : list A) :
  StronglySorted (λ a b, k b ≤ k a) (sort_by (λ a b, bool_decide (k b ≤ k a)) l).
Proof.
  induction l as [|x l IH]; simpl; [constructor|].
  by apply insert_by_key_sorted.
Qed.

Lemma sorted_desc_inv (l sorted : list doc) :
  sorted_desc l = inr sorted →
  sorted ≡ₚ l
  ∧ StronglySorted
      (λ a b, default 0 (updated_key b) ≤ default 0 (updated_key a)) sorted.
Proof.
  unfold sorted_desc, sort_updated_desc. case_match; simpl; [|done].
  es_unfold. intros [= <-]. split.
  - apply sort_by_Permutation.
  - apply (sort_by_key_sorted (λ a, default 0 (updated_key a))).
Qed.

Lemma in_take {A} (x : A) (n : nat) (l : list A) : x ∈ take n l → x ∈ l.
Proof. intros H. rewrite <-(take_drop n l). apply elem_of_app. by left. Qed.


Lemma elem_of_subcollection (u id : string) (d : doc)
    (m : gmap (string * string) doc) :
  (id, d) ∈ Firestore.subcollection u m → m !! (u, id) = Some d.
Proof.
  unfold Firestore.subcollection. rewrite sort_by_Permutation.
  intros ([[o i] d'] & Hin & Hf)%list_elem_of_omap.
  apply elem_of_map_to_list in Hin. case_decide; simplify_eq/=. done.
Qed.

Lemma elem_of_fetched (u : string) (b : bool) (l o : nat)
    (m : gmap (string * string) doc) (x : doc) :
  x ∈ fetched u b l o m →
  ∃ id d, x = with_id id d ∧ m !! (u, id) = Some d
          ∧ (b = false → d !! "is_deleted" = Some (VBool false)).
Proof.
  unfold fetched. intros ([id d] & -> & Hin)%list_elem_of_fmap.
  assert ((id, d) ∈ filter (λ p : string * doc,
            forallb (Firestore.holds p.2) (deleted_filter b))
            (Firestore.subcollection u m)) as Hin'.
  { destruct (l + o)%nat; [done|]. by eapply in_take. }
  apply list_elem_of_filter in Hin' as [Hh Hin'].
  exists id, d. split; [done|]. split; [by apply elem_of_subcollection|].
  intros ->. simpl in Hh. apply Is_true_true in Hh.
  rewrite andb_true_r in Hh. by apply bool_decide_eq_true in Hh.
Qed.



Section listing.
Import OptimizedNoteService.



End listing.

(** ** Searching *)






Section searching.
Import OptimizedNoteService.





End searching.

(** ** The routes *)

Lemma try_except_raise_inv {S A} (body : ES S A) (e0 e : exn) (s : S) :
  (try_except body (λ _, raise e0) s).1 = inl e → e = e0.
Proof.
  unfold try_except, raise. destruct (body s) as [[e'|x] s']; simpl; congruence.
Qed.

Section service_errors.
Import OptimizedNoteService.

Lemma service_raises_500 (w : world) (e : exn) :
  (∀ nd u, (create_note nd u w).1 = inl e → e = HTTPException 500)
  ∧ (∀ n u, (get_note n u w).1 = inl e → e = HTTPException 500)
  ∧ (∀ u b l o, (get_notes u b l o w).1 = inl e → e = HTTPException 500)
  ∧ (∀ n nu u, (update_note n nu u w).1 = inl e → e = HTTPException 500)
  ∧ (∀ n u, (delete_note n u w).1 = inl e → e = HTTPException 500).
Proof.
  split_and!; intros; by eapply try_except_raise_inv.
Qed.

End service_errors.

Section routes.
Import NotesApi.

Lemma get_note_route (note_id u : string) (cu : gmap string string) (w : world) :
  cu !! "uid" = Some u →
  get_note note_id cu w
  = match OptimizedNoteService.get_note note_id u w with
    | (inr (Some note), w') => (inr note, w')
    | (inr None, w') => (inl (HTTPException 404), w')
    | (inl _, w') => (inl (HTTPException 500), w')
    end.
Proof.
  intros Hu. unfold get_note, uid, reraise. es_unfold. rewrite Hu. simpl.
  destruct (OptimizedNoteService.get_note note_id u w) as [[e|[n|]] w'] eqn:E;
    simpl; try done.
  destruct (service_raises_500 w e) as (_ & H & _).
  rewrite (H note_id u); [done|]. by rewrite E.
Qed.

Lemma update_note_route (note_id : string) (nu : NoteUpdate) (u : string)
    (cu : gmap string string) (w : world) :
  cu !! "uid" = Some u →
  update_note note_id nu cu w
  = match OptimizedNoteService.update_note note_id nu u w with
    | (inr (Some note), w') => (inr note, w')
    | (inr None, w') => (inl (HTTPException 404), w')
    | (inl _, w') => (inl (HTTPException 500), w')
    end.
Proof.
  intros Hu. unfold update_note, uid, reraise. es_unfold. rewrite Hu. simpl.
  destruct (OptimizedNoteService.update_note note_id nu u w)
    as [[e|[n|]] w'] eqn:E; simpl; try done.
  destruct (service_raises_500 w e) as (_ & _ & _ & H & _).
  rewrite (H note_id nu u); [done|]. by rewrite E.
Qed.

Lemma delete_note_route (note_id u : string) (cu : gmap string string)
    (w : world) :
  cu !! "uid" = Some u →
  delete_note note_id cu w
  = match OptimizedNoteService.delete_note note_id u w with
    | (inr true, w') => (inr (mkJSONResponse 204), w')
    | (inr false, w') => (inl (HTTPException 404), w')
    | (inl _, w') => (inl (HTTPException 500), w')
    end.
Proof.
  intros Hu. unfold delete_note, uid, reraise. es_unfold. rewrite Hu. simpl.
  destruct (OptimizedNoteService.delete_note note_id u w)
    as [[e|[|]] w'] eqn:E; simpl; try done.
  destruct (service_raises_500 w e) as (_ & _ & _ & _ & H).
  rewrite (H note_id u); [done|]. by rewrite E.
Qed.

Lemma route_without_uid (cu : gmap string string) (w : world) :
  cu !! "uid" = None →
  (∀ nd, create_note nd cu w = (inl (HTTPException 500), w))
  ∧ (∀ b l o, get_notes b l o cu w = (inl (HTTPException 500), w))
  ∧ (∀ n, get_note n cu w = (inl (HTTPException 500), w))
  ∧ (∀ n nu, update_note n nu cu w = (inl (HTTPException 500), w))
  ∧ (∀ n, delete_note n cu w = (inl (HTTPException 500), w)).
Proof.
  intros Hu.
  split_and!; intros;
    unfold create_note, get_notes, get_note, update_note, delete_note, uid,
      reraise; es_unfold; rewrite Hu; reflexivity.
Qed.

Lemma route_errors (cu : gmap string string) (w : world) (e : exn) :
  (∀ nd, (create_note nd cu w).1 = inl e → e = HTTPException 500)
  ∧ (∀ b l o, (get_notes b l o cu w).1 = inl e → e = HTTPException 500)
  ∧ (∀ n, (get_note n cu w).1 = inl e →
          e = HTTPException 404 ∨ e = HTTPException 500)
  ∧ (∀ n nu, (update_note n nu cu w).1 = inl e →
             e = HTTPException 404 ∨ e = HTTPException 500)
  ∧ (∀ n, (delete_note n cu w).1 = inl e →
          e = HTTPException 404 ∨ e = HTTPException 500).
Proof.
  split_and!.
  - intros nd. apply try_except_raise_inv.
  - intros b l o. apply try_except_raise_inv.
  - intros n. destruct (cu !! "uid") as [u|] eqn:Hu.
    + rewrite (get_note_route n u cu w Hu).
      destruct (OptimizedNoteService.get_note n u w) as [[e'|[x|]] w'];
        simpl; intros [= <-]; auto.
    + destruct (route_without_uid cu w Hu) as (_ & _ & H & _).
      rewrite H. simpl. intros [= <-]; auto.
  - intros n nu. destruct (cu !! "uid") as [u|] eqn:Hu.
    + rewrite (update_note_route n nu u cu w Hu).
      destruct (OptimizedNoteService.update_note n nu u w) as [[e'|[x|]] w'];
        simpl; intros [= <-]; auto.
    + destruct (route_without_uid cu w Hu) as (_ & _ & _ & H & _).
      rewrite H. simpl. intros [= <-]; auto.
  - intros n. destruct (cu !! "uid") as [u|] eqn:Hu.
    + rewrite (delete_note_route n u cu w Hu).
      destruct (OptimizedNoteService.delete_note n u w) as [[e'|[|]] w'];
        simpl; intros [= <-]; auto.
    + destruct (route_without_uid cu w Hu) as (_ & _ & _ & _ & H).
      rewrite H. simpl. intros [= <-]; auto.
Qed.

(** X15. Whatever the token, the request and the failures of store and cache,
    a route under /notes that does not return raises an HTTPException:
    always with status 500 for creating and listing, with status 404 or 500
    for reading, updating and deleting one note. A token without a uid gives
    status 500 on every route, and nothing is read or written. *)
Theorem routes_raise_only_404_or_500 (cu : gmap string string) (w : world) :
  (∀ e,
     (∀ nd, (create_note nd cu w).1 = inl e → e = HTTPException 500)
     ∧ (∀ b l o, (get_notes b l o cu w).1 = inl e → e = HTTPException 500)
     ∧ (∀ n, (get_note n cu w).1 = inl e →
             e = HTTPException 404 ∨ e = HTTPException 500)
     ∧ (∀ n nu, (update_note n nu cu w).1 = inl e →
                e = HTTPException 404 ∨ e = HTTPException 500)
     ∧ (∀ n, (delete_note n cu w).1 = inl e →
             e = HTTPException 404 ∨ e = HTTPException 500))
  ∧ (cu !! "uid" = None →
     (∀ nd, create_note nd cu w = (inl (HTTPException 500), w))
     ∧ (∀ b l o, get_notes b l o cu w = (inl (HTTPException 500), w))
     ∧ (∀ n, get_note n cu w = (inl (HTTPException 500), w))
     ∧ (∀ n nu, update_note n nu cu w = (inl (HTTPException 500), w))
     ∧ (∀ n, delete_note n cu w = (inl (HTTPException 500), w))).
Proof.
  split; [intros e; apply route_errors|apply route_without_uid].
Qed.

Lemma routes_raise_only_404_or_500_witness :
  let cu : gmap string string := {["email" := "a@b.c"]} in
  let w := empty_world ms_clock in
  cu !! "uid" = None
  ∧ delete_note "1" cu w = (inl (HTTPException 500), w).
Proof.
  intros cu w.
  assert (cu !! "uid" = None) as H1 by (apply lookup_singleton_ne; done).
  split; [exact H1|].
  exact (proj2 (proj2 (proj2 (proj2
           (proj2 (routes_raise_only_404_or_500 cu w) H1)))) "1").
Defined.

Lemma get_note_absent (note_id u : string) (w : world) :
  store_healthy (fs w) →
  docs (fs w) !! (u, note_id) = None →
  kv (rd w) !! note_key note_id u = None →
  ∃ w', OptimizedNoteService.get_note note_id u w = (inr None, w')
        ∧ docs (fs w') = docs (fs w).
Proof.
  intros [Hdb Hf] Hd Hk.
  destruct (cache_get_note_miss note_id u (rd w) Hk) as [r' E].
  unfold OptimizedNoteService.get_note. service_unfold. rewrite E. simpl.
  store_step. rewrite Hdb, Hf, Hd. simpl. eauto.
Qed.

(** X16. One owner's routes do not reach another owner's notes. With the
    store answering and a token for owner u, reading (with no cache entry
    under the note's key), updating or deleting a note id that u's
    sub-collection does not hold, be it held by another owner or by nobody,
    raises status 404 and leaves every stored record as it was. *)
Theorem routes_answer_404_outside_own_notes
    (note_id u : string) (cu : gmap string string) (w : world) :
  store_healthy (fs w) →
  cu !! "uid" = Some u →
  docs (fs w) !! (u, note_id) = None →
  (kv (rd w) !! note_key note_id u = None →
   (get_note note_id cu w).1 = inl (HTTPException 404)
   ∧ docs (fs (get_note note_id cu w).2) = docs (fs w))
  ∧ (∀ nu, (update_note note_id nu cu w).1 = inl (HTTPException 404)
           ∧ docs (fs (update_note note_id nu cu w).2) = docs (fs w))
  ∧ (delete_note note_id cu w).1 = inl (HTTPException 404)
  ∧ docs (fs (delete_note note_id cu w).2) = docs (fs w).
Proof.
  intros Hs Hu Hd. split_and!.
  - intros Hk. rewrite (get_note_route _ _ _ _ Hu).
    destruct (get_note_absent note_id u w Hs Hd Hk) as (w' & E & Hdocs).
    by rewrite E.
  - intros nu. rewrite (update_note_route _ _ _ _ _ Hu).
    destruct Hs as [Hdb Hf].
    unfold OptimizedNoteService.update_note. service_unfold. store_step.
    rewrite Hdb, Hf, Hd. simpl. done.
  - rewrite (delete_note_route _ _ _ _ Hu).
    destruct Hs as [Hdb Hf].
    unfold OptimizedNoteService.delete_note. service_unfold. store_step.
    rewrite Hdb, Hf, Hd. simpl. done.
  - rewrite (delete_note_route _ _ _ _ Hu).
    destruct Hs as [Hdb Hf].
    unfold OptimizedNoteService.delete_note. service_unfold. store_step.
    rewrite Hdb, Hf, Hd. simpl. done.
Qed.

Lemma routes_answer_404_outside_own_notes_witness :
  let cu : gmap string string := {["uid" := "u2"]} in
  let w := mkWorld (healthy_firestore {[("u1", "1") := sample_doc false 5]})
                   (healthy_redis ∅) ms_clock 0 in
  store_healthy (fs w)
  ∧ cu !! "uid" = Some "u2"
  ∧ docs (fs w) !! ("u2", "1") = None
  ∧ (delete_note "1" cu w).1 = inl (HTTPException 404)
  ∧ docs (fs (delete_note "1" cu w).2) = docs (fs w).
Proof.
  intros cu w.
  assert (store_healthy (fs w)) as H1 by (split; [reflexivity|intros; reflexivity]).
  assert (cu !! "uid" = Some "u2") as H2 by apply lookup_singleton_eq.
  assert (docs (fs w) !! ("u2", "1") = None) as H3
    by (apply lookup_singleton_ne; done).
  split_and!; [exact H1|exact H2|exact H3|..];
    apply (routes_answer_404_outside_own_notes "1" "u2" cu w H1 H2 H3).
Defined.

(** X17. With the store answering and a token for the owner, DELETE on a
    stored note answers 204 whether the cache answers or fails, and the
    record stays in the store with is_deleted=true and the time of the call
    as updated_at, its other fields as they were. *)
Theorem delete_route_answers_204_and_keeps_the_record
    (note_id u : string) (cu : gmap string string) (w : world) (d : doc) :
  store_healthy (fs w) →
  cu !! "uid" = Some u →
  docs (fs w) !! (u, note_id) = Some d →
  let out := delete_note note_id cu w in
  out.1 = inr (mkJSONResponse 204)
  ∧ ∃ d', docs (fs out.2) !! (u, note_id) = Some d'
          ∧ d' !! "is_deleted" = Some (VBool true)
          ∧ d' !! "updated_at" = Some (VTime (clock w (tick w)))
          ∧ ∀ field, field ≠ "is_deleted" → field ≠ "updated_at" →
                     d' !! field = d !! field.
Proof.
  intros Hs Hu Hd out. subst out.
  destruct (delete_note_healthy note_id u w d Hs Hd) as [Hr Hdocs].
  rewrite (delete_note_route _ _ _ _ Hu).
  destruct (OptimizedNoteService.delete_note note_id u w) as [r w'] eqn:E.
  simpl in Hr, Hdocs. subst r. simpl. split; [done|].
  exists (delete_data (clock w (tick w)) ∪ d).
  rewrite Hdocs, lookup_insert_eq. split; [done|].
  split; [apply delete_data_union_is_deleted|].
  split; [apply delete_data_union_updated_at|].
  intros field H1 H2. rewrite lookup_union, delete_data_lookup.
  repeat case_decide; simplify_eq; by destruct (d !! field).
Qed.

Lemma delete_route_answers_204_and_keeps_the_record_witness :
  let cu : gmap string string := {["uid" := "u1"]} in
  let w := mkWorld (healthy_firestore {[("u1", "1") := sample_doc false 5]})
                   (redis_failing_at 0 ∅) ms_clock 0 in
  store_healthy (fs w)
  ∧ cu !! "uid" = Some "u1"
  ∧ docs (fs w) !! ("u1", "1") = Some (sample_doc false 5)
  ∧ (delete_note "1" cu w).1 = inr (mkJSONResponse 204).
Proof.
  intros cu w.
  assert (store_healthy (fs w)) as H1 by (split; [reflexivity|intros; reflexivity]).
  assert (cu !! "uid" = Some "u1") as H2 by apply lookup_singleton_eq.
  assert (docs (fs w) !! ("u1", "1") = Some (sample_doc false 5)) as H3
    by apply lookup_singleton_eq.
  split_and!; [exact H1|exact H2|exact H3|].
  exact (proj1 (delete_route_answers_204_and_keeps_the_record
                  "1" "u1" cu w _ H1 H2 H3)).
Defined.

End routes.

(** ** The store adapter *)

Section adapter.
Import FirestoreService.

Lemma delete_subcollection_document_eq uid nid s :
  delete_subcollection_document uid nid s =
  if db s then
    if sfail s (scalls s)
    then (inl StoreError,
          mkFirestore (docs s) (db s) (sfail s) (S (scalls s)) (S (sraised s)))
    else (inr true,
          mkFirestore (base.delete (uid, nid) (docs s)) (db s) (sfail s)
            (S (scalls s)) (sraised s))
  else (inl NotInitialized, Firestore.count_raise s).
Proof.
  unfold delete_subcollection_document, Firestore.delete. firestore_unfold.
  simpl. by_cases.
Qed.

(** X18. Round trips of the store adapter, with the store answering. A
    document read back right after create_subcollection_document is the dict
    that call returned: the written fields and the document id under id,
    unless the fields hold an id of their own. delete_subcollection_document
    returns True whether or not the document existed, a read right after
    finds nothing, and no other document changes. Updating a document that
    does not exist raises and writes nothing. *)
Theorem adapter_round_trips (u id : string) (s : firestore) :
  store_healthy s →
  (∀ data,
     let out := create_subcollection_document u id data s in
     out.1 = inr (with_id id data)
     ∧ (get_subcollection_document u id out.2).1 = inr (Some (with_id id data))
     ∧ ∀ k, k ≠ (u, id) → docs out.2 !! k = docs s !! k)
  ∧ (let out := delete_subcollection_document u id s in
     out.1 = inr true
     ∧ (get_subcollection_document u id out.2).1 = inr None
     ∧ ∀ k, k ≠ (u, id) → docs out.2 !! k = docs s !! k)
  ∧ (docs s !! (u, id) = None →
     ∀ data,
       let out := update_subcollection_document u id data s in
       out.1 = inl StoreError ∧ docs out.2 = docs s).
Proof.
  intros [Hdb Hf]. split_and!.
  - intros data out. subst out.
    rewrite create_subcollection_document_eq, Hdb, Hf. simpl.
    rewrite get_subcollection_document_eq. simpl. rewrite ?Hdb, ?Hf. simpl.
    rewrite lookup_insert_eq. simpl. split_and!; [done..|].
    intros k Hk. by rewrite lookup_insert_ne.
  - intros out. subst out.
    rewrite delete_subcollection_document_eq, Hdb, Hf. simpl.
    rewrite get_subcollection_document_eq. simpl. rewrite ?Hdb, ?Hf. simpl.
    rewrite lookup_delete_eq. simpl. split_and!; [done..|].
    intros k Hk. by rewrite lookup_delete_ne.
  - intros Hd data out. subst out.
    rewrite update_subcollection_document_eq, Hdb, Hf. simpl.
    rewrite ?Hdb, ?Hf, ?Hd. simpl. rewrite ?Hd. simpl. done.
Qed.

Lemma adapter_round_trips_witness :
  let s := healthy_firestore {[("u1", "1") := sample_doc false 5]} in
  store_healthy s
  ∧ (delete_subcollection_document "u1" "1" s).1 = inr true
  ∧ (get_subcollection_document "u1" "1"
       (delete_subcollection_document "u1" "1" s).2).1 = inr None.
Proof.
  intros s.
  assert (store_healthy s) as H1 by (split; [reflexivity|intros; reflexivity]).
  split; [exact H1|].
  pose proof (proj1 (proj2 (adapter_round_trips "u1" "1" s H1))) as (Ha & Hb & _).
  split; [exact Ha|exact Hb].
Defined.

End adapter.

(** ** Reading through the cache *)

Section read_through.
Import OptimizedNoteService.

Lemma get_notes_count_fills (u : string) (b : bool) (w : world) :
  store_healthy (fs w) → cache_healthy (rd w) →
  kv (rd w) !! count_key u b = None →
  let n := Z.of_nat (size (matching u b (docs (fs w)))) in
  ∃ w', get_notes_count u b w = (inr n, w')
        ∧ cache_healthy (rd w')
        ∧ kv (rd w') = <[count_key u b := (CInt n, CacheService.cache_ttl)]>
                         (kv (rd w)).
Proof.
  intros [Hdb Hf] Hc Hk n.
  destruct (get_notes_count_healthy u b (rd w) Hc) as (r1 & E1 & Hf1 & Hk1).
  rewrite Hk in E1.
  assert (cache_healthy r1) as Hc1 by (intros k; rewrite Hf1; apply Hc).
  unfold get_notes_count. service_unfold. rewrite E1. simpl.
  store_step. rewrite Hdb, Hf. simpl.
  rewrite length_fmap, subcollection_matching_length. fold n.
  destruct (set_notes_count_healthy u n b None r1 Hc1) as (r2 & E2 & Hf2 & Hk2).
  rewrite E2. simpl. eexists. split; [done|]. simpl. split.
  - intros k. rewrite Hf2. apply Hc1.
  - by rewrite Hk2, Hk1.
Qed.

Lemma get_notes_count_hit (u : string) (b : bool) (n ttl : Z) (w : world) :
  cache_healthy (rd w) →
  kv (rd w) !! count_key u b = Some (CInt n, ttl) →
  (get_notes_count u b w).1 = inr n.
Proof.
  intros Hc Hk.
  destruct (get_notes_count_healthy u b (rd w) Hc) as (r1 & E1 & _).
  rewrite Hk in E1.
  unfold get_notes_count. service_unfold. by rewrite E1.
Qed.

(** X19. With both clients answering and no count entry for the owner,
    get_notes_count returns the number of the owner's matching records and
    leaves it in the cache for 300 seconds. From then on the count is
    answered from that entry: whatever the store holds afterwards, or
    whether it answers at all, the next get_notes_count returns the same
    number. *)
Theorem count_is_served_from_its_entry
    (u : string) (b : bool) (w : world) :
  store_healthy (fs w) → cache_healthy (rd w) →
  kv (rd w) !! count_key u b = None →
  let n := Z.of_nat (size (matching u b (docs (fs w)))) in
  let out := get_notes_count u b w in
  out.1 = inr n
  ∧ kv (rd out.2) !! count_key u b = Some (CInt n, 300)
  ∧ ∀ s' c' t',
      (get_notes_count u b (mkWorld s' (rd out.2) c' t')).1 = inr n.
Proof.
  intros Hs Hc Hk n out. subst out.
  destruct (get_notes_count_fills u b w Hs Hc Hk) as (w' & E & Hc' & Hk').
  rewrite E. simpl.
  assert (kv (rd w') !! count_key u b = Some (CInt n, 300)) as Hn
    by (rewrite Hk'; apply lookup_insert_eq).
  split; [done|]. split; [exact Hn|].
  intros s' c' t'. by apply (get_notes_count_hit u b n 300).
Qed.

Lemma count_is_served_from_its_entry_witness :
  let w := mkWorld (healthy_firestore {[("u1", "1") := sample_doc false 5]})
                   (healthy_redis ∅) ms_clock 0 in
  let out := get_notes_count "u1" false w in
  store_healthy (fs w) ∧ cache_healthy (rd w)
  ∧ kv (rd w) !! count_key "u1" false = None
  ∧ (get_notes_count "u1" false
       (mkWorld (firestore_failing_at 0 ∅) (rd out.2) ms_clock 0)).1
    = inr (Z.of_nat (size (matching "u1" false (docs (fs w))))).
Proof.
  intros w out.
  assert (store_healthy (fs w)) as H1 by (split; [reflexivity|intros; reflexivity]).
  assert (cache_healthy (rd w)) as H2 by (intros k; reflexivity).
  assert (kv (rd w) !! count_key "u1" false = None) as H3 by apply lookup_empty.
  split_and!; [exact H1|exact H2|exact H3|].
  exact (proj2 (proj2 (count_is_served_from_its_entry "u1" false w H1 H2 H3))
           (firestore_failing_at 0 ∅) ms_clock 0%nat).
Defined.

Lemma get_notes_fills (u : string) (b : bool) (l o : nat) (w : world)
    (notes : list Note) :
  cache_healthy (rd w) →
  kv (rd w) !! notes_key u b (Z.of_nat l) (Z.of_nat o) = None →
  (get_notes u b l o w).1 = inr notes →
  cache_healthy (rd (get_notes u b l o w).2)
  ∧ kv (rd (get_notes u b l o w).2)
    = <[notes_key u b (Z.of_nat l) (Z.of_nat o)
        := (CNotes notes, CacheService.cache_ttl)]> (kv (rd w)).
Proof.
  intros Hc Hk.
  destruct (get_notes_healthy u b (Z.of_nat l) (Z.of_nat o) (rd w) Hc)
    as (r1 & E1 & Hf1 & Hk1).
  rewrite Hk in E1.
  assert (cache_healthy r1) as Hc1 by (intros k; rewrite Hf1; apply Hc).
  unfold get_notes. service_unfold. rewrite E1. simpl.
  store_step.
  destruct (db (fs w)); simpl; [|done].
  destruct (sfail (fs w) (scalls (fs w))); simpl; [done|].
  rewrite sort_updated_desc_eq.
  destruct (sorted_desc _) as [e|sorted]; simpl; [done|].
  rewrite mapM_Note_of_eq.
  destruct (notes_of u _) as [e|ns]; simpl; [done|].
  destruct (set_notes_healthy u ns b (Z.of_nat l) (Z.of_nat o) None r1 Hc1)
    as (r2 & E2 & Hf2 & Hk2).
  rewrite E2. simpl. intros [= <-]. split.
  - intros k. rewrite Hf2. apply Hc1.
  - by rewrite Hk2, Hk1.
Qed.

Lemma notes_of_valid (u : string) (l : list doc) (ns : list Note) :
  Forall2 (λ d n, note_of d u = inr n) l ns →
  Forall (λ n, valid_text (n_title n) (n_content n) = true) ns.
Proof.
  induction 1 as [|d n l ns Hn _ IH]; constructor; [|done].
  by apply note_of_inv in Hn as (_ & _ & _ & _ & _ & _ & _ & Hv).
Qed.

Lemma get_notes_hit (u : string) (b : bool) (l o : nat) (ns : list Note)
    (ttl : Z) (w : world) :
  cache_healthy (rd w) →
  kv (rd w) !! notes_key u b (Z.of_nat l) (Z.of_nat o) = Some (CNotes ns, ttl) →
  ns ≠ [] →
  Forall (λ n, valid_text (n_title n) (n_content n) = true) ns →
  (get_notes u b l o w).1 = inr ns.
Proof.
  intros Hc Hk Hne Hv.
  destruct (get_notes_healthy u b (Z.of_nat l) (Z.of_nat o) (rd w) Hc)
    as (r1 & E1 & _).
  rewrite Hk in E1. simpl in E1.
  unfold get_notes. service_unfold. rewrite E1. simpl.
  rewrite bool_decide_eq_true_2 by (by rewrite bool_decide_eq_true_2).
  by rewrite mapM_Note_again_valid.
Qed.

(** X20. With the Redis client answering, a page that get_notes read from the
    store is left in the cache under the page's key for 300 seconds, and a
    page that is not empty is answered from that entry from then on: the
    same get_notes returns the same notes whatever the store holds
    afterwards, or whether it answers at all. *)
Theorem listed_page_is_served_from_its_entry
    (u : string) (b : bool) (l o : nat) (w : world) (notes : list Note) :
  cache_healthy (rd w) →
  kv (rd w) !! notes_key u b (Z.of_nat l) (Z.of_nat o) = None →
  (get_notes u b l o w).1 = inr notes →
  let out := get_notes u b l o w in
  kv (rd out.2) !! notes_key u b (Z.of_nat l) (Z.of_nat o)
  = Some (CNotes notes, 300)
  ∧ (notes ≠ [] →
     ∀ s' c' t',
       (get_notes u b l o (mkWorld s' (rd out.2) c' t')).1 = inr notes).
Proof.
  intros Hc Hk Hr out. subst out.
  destruct (get_notes_fills u b l o w notes Hc Hk Hr) as [Hc' Hk'].
  assert (kv (rd (get_notes u b l o w).2)
            !! notes_key u b (Z.of_nat l) (Z.of_nat o)
          = Some (CNotes notes, 300)) as Hn
    by (rewrite Hk'; apply lookup_insert_eq).
  split; [exact Hn|].
  intros Hne s' c' t'.
  apply (get_notes_hit u b l o notes 300); [exact Hc'|exact Hn|exact Hne|].
  destruct (get_notes_miss u b l o w notes Hk Hr) as (sorted & _ & Hns).
  by eapply notes_of_valid, notes_of_Forall2.
Qed.

Lemma listed_page_is_served_from_its_entry_witness :
  let w := mkWorld (healthy_firestore {[("u1", "1") := sample_doc false 5]})
                   (healthy_redis ∅) ms_clock 0 in
  let note := mkNote "1" "title" "content" false false "text" "primary" "u1" 5 5 in
  let out := get_notes "u1" false 10 0 w in
  cache_healthy (rd w)
  ∧ kv (rd w) !! notes_key "u1" false 10 0 = None
  ∧ (get_notes "u1" false 10 0 w).1 = inr [note]
  ∧ (get_notes "u1" false 10 0
       (mkWorld (firestore_failing_at 0 ∅) (rd out.2) ms_clock 0)).1
    = inr [note].
Proof.
  intros w note out.
  assert (cache_healthy (rd w)) as H1 by (intros k; reflexivity).
  assert (kv (rd w) !! notes_key "u1" false 10 0 = None) as H2
    by apply lookup_empty.
  assert ((get_notes "u1" false 10 0 w).1 = inr [note]) as H3
    by (vm_compute; reflexivity).
  split_and!; [exact H1|exact H2|exact H3|].
  refine (proj2 (listed_page_is_served_from_its_entry
                   "u1" false 10 0 w [note] H1 H2 H3) _
            (firestore_failing_at 0 ∅) ms_clock 0%nat).
  discriminate.
Defined.

End read_through.

(** ** Writes and what follows them *)

Section writes.
Import OptimizedNoteService.






End writes.

(** ** A listing that fits the page *)

Lemma elem_of_subcollection_2 (u id : string) (d : doc)
    (m : gmap (string * string) doc) :
  m !! (u, id) = Some d → (id, d) ∈ Firestore.subcollection u m.
Proof.
  intros Hd. unfold Firestore.subcollection. rewrite sort_by_Permutation.
  apply list_elem_of_omap. exists ((u, id), d). split.
  - by apply elem_of_map_to_list.
  - simpl. by rewrite decide_True.
Qed.

Lemma fetched_fits (u : string) (b : bool) (l o : nat)
    (m : gmap (string * string) doc) :
  (size (matching u b m) ≤ l + o)%nat →
  fetched u b l o m
  = (λ p, with_id p.1 p.2)
      <$> filter (λ p, forallb (Firestore.holds p.2) (deleted_filter b))
                 (Firestore.subcollection u m).
Proof.
  intros Hl. unfold fetched. simpl.
  destruct (l + o)%nat as [|n] eqn:E; [done|].
  rewrite take_ge; [done|]. rewrite subcollection_matching_length. lia.
Qed.

Lemma sorted_desc_total (l : list doc) :
  Forall (λ x, is_Some (updated_key x)) l →
  ∃ sorted, sorted_desc l = inr sorted.
Proof.
  intros Hl. unfold sorted_desc, sort_updated_desc.
  replace (forallb _ l) with true; [simpl; eauto|].
  symmetry. apply forallb_forall. intros x Hx.
  apply bool_decide_eq_true.
  apply (proj1 (Forall_forall _ _) Hl). by apply list_elem_of_In.
Qed.

Lemma notes_of_total (u : string) (l : list doc) :
  Forall (λ d, ∃ n, note_of d u = inr n) l → ∃ ns, notes_of u l = inr ns.
Proof.
  unfold notes_of. induction 1 as [|d l [n Hn] _ [ns IH]]; simpl; [eauto|].
  es_unfold. rewrite (Note_of_eq d u tt), Hn. simpl.
  destruct (mapM _ l tt) as [[e|ys] []]; simpl in *; [done|]. eauto.
Qed.

Section fitting.
Import OptimizedNoteService.

Lemma get_notes_miss_returns (u : string) (b : bool) (l o : nat) (w : world)
    (sorted : list doc) (notes : list Note) :
  store_healthy (fs w) →
  kv (rd w) !! notes_key u b (Z.of_nat l) (Z.of_nat o) = None →
  sorted_desc (fetched u b l o (docs (fs w))) = inr sorted →
  notes_of u (take l (drop o sorted)) = inr notes →
  (get_notes u b l o w).1 = inr notes.
Proof.
  intros [Hdb Hf] Hk Hs Hn.
  destruct (cache_get_notes_miss u b _ _ (rd w) Hk) as [r' E].
  unfold get_notes. service_unfold. rewrite E. simpl.
  store_step. rewrite Hdb, Hf. simpl.
  rewrite sort_updated_desc_eq. fold (fetched u b l o (docs (fs w))).
  rewrite Hs. simpl. rewrite mapM_Note_of_eq.
  replace (if bool_decide (0 < o)%nat then drop o sorted else sorted)
    with (drop o sorted) by (by destruct o).
  rewrite Hn. simpl. cache_step. simpl. done.
Qed.

(** X23. A first page that has room for all of them is complete. With the
    store answering, the page not cached, every record of the owner making a
    valid Note and no more matching records than limit, get_notes at offset 0
    returns as many notes as there are matching records, one for each of
    them, whatever the cache does. *)
Theorem first_page_is_complete_when_it_fits
    (u : string) (b : bool) (l : nat) (w : world) :
  store_healthy (fs w) →
  kv (rd w) !! notes_key u b (Z.of_nat l) 0 = None →
  (∀ id d, docs (fs w) !! (u, id) = Some d →
           ∃ n, note_of (with_id id d) u = inr n) →
  (size (matching u b (docs (fs w))) ≤ l)%nat →
  ∃ notes,
    (get_notes u b l 0 w).1 = inr notes
    ∧ length notes = size (matching u b (docs (fs w)))
    ∧ ∀ id d, docs (fs w) !! (u, id) = Some d →
              b = true ∨ d !! "is_deleted" = Some (VBool false) →
              ∃ n, note_of (with_id id d) u = inr n ∧ n ∈ notes.
Proof.
  intros Hs Hk Hvalid Hfit.
  set (m := docs (fs w)) in *.
  set (found := filter (λ p : string * doc,
                  forallb (Firestore.holds p.2) (deleted_filter b))
                  (Firestore.subcollection u m)).
  assert (fetched u b l 0 m = (λ p, with_id p.1 p.2) <$> found) as Hfetched
    by (apply fetched_fits; lia).
  assert (length (fetched u b l 0 m) = size (matching u b m)) as Hlen
    by (rewrite Hfetched, length_fmap; apply subcollection_matching_length).
  assert (Forall (λ x, ∃ n, note_of x u = inr n) (fetched u b l 0 m)) as Hall.
  { apply Forall_forall. intros x Hx.
    apply elem_of_fetched in Hx as (id & d & -> & Hd & _). eauto. }
  destruct (sorted_desc_total (fetched u b l 0 m)) as [sorted Hsorted].
  { eapply Forall_impl; [exact Hall|]. intros x [n Hn]. simpl.
    apply note_of_inv in Hn as (_ & _ & _ & _ & _ & Hu & _).
    unfold updated_key. rewrite Hu. eauto. }
  pose proof (sorted_desc_inv _ _ Hsorted) as [Hperm _].
  assert (take l (drop 0 sorted) = sorted) as Htake.
  { rewrite drop_0, take_ge; [done|]. rewrite Hperm, Hlen. exact Hfit. }
  destruct (notes_of_total u sorted) as [notes Hnotes].
  { by rewrite Hperm. }
  exists notes. split; [|split].
  - apply (get_notes_miss_returns u b l 0 w sorted notes Hs Hk Hsorted).
    by rewrite Htake.
  - apply notes_of_Forall2, Forall2_length in Hnotes.
    by rewrite <-Hnotes, Hperm.
  - intros id d Hd Hb.
    assert (with_id id d ∈ sorted) as Hin.
    { rewrite Hperm, Hfetched. apply list_elem_of_fmap.
      exists (id, d). split; [done|]. apply list_elem_of_filter. split.
      - simpl. destruct b; simpl; [done|].
        destruct Hb as [Hb|Hb]; [done|].
        rewrite andb_true_r. apply Is_true_true, bool_decide_eq_true. exact Hb.
      - by apply elem_of_subcollection_2. }
    apply list_elem_of_lookup_1 in Hin as [i Hi].
    apply notes_of_Forall2 in Hnotes.
    destruct (Forall2_lookup_l _ _ _ _ _ Hnotes Hi) as (n & Hn & Hxn).
    exists n. split; [exact Hxn|]. by eapply list_elem_of_lookup_2.
Qed.

Lemma first_page_is_complete_when_it_fits_witness :
  let w := mkWorld (healthy_firestore {[("u1", "1") := sample_doc false 5]})
                   (redis_failing_at 0 ∅) ms_clock 0 in
  store_healthy (fs w)
  ∧ kv (rd w) !! notes_key "u1" false 10 0 = None
  ∧ (size (matching "u1" false (docs (fs w))) ≤ 10)%nat
  ∧ ∃ notes,
      (get_notes "u1" false 10 0 w).1 = inr notes
      ∧ length notes = size (matching "u1" false (docs (fs w))).
Proof.
  intros w.
  assert (store_healthy (fs w)) as H1 by (split; [reflexivity|intros; reflexivity]).
  assert (kv (rd w) !! notes_key "u1" false 10 0 = None) as H2
    by apply lookup_empty.
  assert (∀ id d, docs (fs w) !! ("u1", id) = Some d →
                  ∃ n, note_of (with_id id d) "u1" = inr n) as H3.
  { intros id d Hd. simpl in Hd.
    apply lookup_singleton_Some in Hd as [[= <-] <-].
    eexists. reflexivity. }
  assert (size (matching "u1" false (docs (fs w))) ≤ 10)%nat as H4.
  { vm_compute. lia. }
  split_and!; [exact H1|exact H2|exact H4|].
  destruct (first_page_is_complete_when_it_fits "u1" false 10 w H1 H2 H3 H4)
    as (notes & Hr & Hl & _).
  exists notes. split; [exact Hr|exact Hl].
Defined.

End fitting.
